(** * Voice-Tasks: the recurring-payment reminder scheduler of [hooks.ts]

    A shallow embedding of [usePayments] (the due-payment filter, the
    e-mail dispatch run [checkAndSendEmails] and the 06:00 scheduler) and of
    [sendPaymentReminderEmail] from [services/emailService.ts], together
    with the part of the ECMAScript [Date] object these functions call. *)

From Stdlib Require Import ZArith QArith Lia Bool Sorted.
From stdpp Require Import base decidable option list strings gmap sets.

Local Open Scope Z_scope.

(** ** The ECMAScript [Date] abstract operations

    Time values are integers: milliseconds since 1 January 1970 UTC.  The
    definitions follow ECMA-262, section "Date Objects", by name.  Two
    things are outside the model: [TimeClip] (time values are unbounded
    integers, there is no invalid date) and daylight saving (local time is
    UTC plus a fixed offset).  Where the zone changes its offset, a delay
    computed across the change differs from the one computed here by the
    shift; the local dates and times of day do not. *)
Module JSDate.

Definition msPerDay : Z := 86400000.
Definition msPerHour : Z := 3600000.
Definition msPerMinute : Z := 60000.
Definition msPerSecond : Z := 1000.

Definition Day (t : Z) : Z := t / msPerDay.
Definition TimeWithinDay (t : Z) : Z := t mod msPerDay.

Definition DaysInYear (y : Z) : Z :=
  if negb (y mod 4 =? 0) then 365
  else if negb (y mod 100 =? 0) then 366
  else if negb (y mod 400 =? 0) then 365
  else 366.

Definition DayFromYear (y : Z) : Z :=
  365 * (y - 1970) + (y - 1969) / 4 - (y - 1901) / 100 + (y - 1601) / 400.

Definition TimeFromYear (y : Z) : Z := msPerDay * DayFromYear y.

(** [YearFromTime t] is "the largest integer y such that
    [TimeFromYear y <= t]".  It is computed from the mean length of a
    Gregorian year (146097 days in 400 years), which is off by at most one
    year, and then adjusted; [YearFromTime_spec] proves that the result is
    the year ECMA-262 asks for. *)
Definition YearFromTime (t : Z) : Z :=
  let d := Day t in
  let y := 1970 + (400 * d) / 146097 in
  if DayFromYear (y + 1) <=? d then y + 1
  else if d <? DayFromYear y then y - 1
  else y.

Definition InLeapYear (t : Z) : Z :=
  if DaysInYear (YearFromTime t) =? 366 then 1 else 0.

Definition DayWithinYear (t : Z) : Z := Day t - DayFromYear (YearFromTime t).

Definition MonthFromTime (t : Z) : Z :=
  let d := DayWithinYear t in
  let l := InLeapYear t in
  if d <? 31 then 0
  else if d <? 59 + l then 1
  else if d <? 90 + l then 2
  else if d <? 120 + l then 3
  else if d <? 151 + l then 4
  else if d <? 181 + l then 5
  else if d <? 212 + l then 6
  else if d <? 243 + l then 7
  else if d <? 273 + l then 8
  else if d <? 304 + l then 9
  else if d <? 334 + l then 10
  else 11.

Definition DateFromTime (t : Z) : Z :=
  let d := DayWithinYear t in
  let l := InLeapYear t in
  match MonthFromTime t with
  | 0 => d + 1
  | 1 => d - 30
  | 2 => d - 58 - l
  | 3 => d - 89 - l
  | 4 => d - 119 - l
  | 5 => d - 150 - l
  | 6 => d - 180 - l
  | 7 => d - 211 - l
  | 8 => d - 242 - l
  | 9 => d - 272 - l
  | 10 => d - 303 - l
  | _ => d - 333 - l
  end.

Definition WeekDay (t : Z) : Z := (Day t + 4) mod 7.

(** Days of the year that precede month [mn] (0 = January), the table
    [MonthFromTime] is built on. *)
Definition daysBeforeMonth (leap : Z) (mn : Z) : Z :=
  match mn with
  | 0 => 0
  | 1 => 31
  | 2 => 59 + leap
  | 3 => 90 + leap
  | 4 => 120 + leap
  | 5 => 151 + leap
  | 6 => 181 + leap
  | 7 => 212 + leap
  | 8 => 243 + leap
  | 9 => 273 + leap
  | 10 => 304 + leap
  | _ => 334 + leap
  end.

(** [MakeDay year month date]: the day number of the first of the month,
    after carrying [month] into the year, plus [date - 1]. *)
Definition MakeDay (year month date : Z) : Z :=
  let ym := year + month / 12 in
  let mn := month mod 12 in
  let leap := if DaysInYear ym =? 366 then 1 else 0 in
  DayFromYear ym + daysBeforeMonth leap mn + date - 1.

Definition MakeTime (hour min sec ms : Z) : Z :=
  hour * msPerHour + min * msPerMinute + sec * msPerSecond + ms.

Definition MakeDate (day time : Z) : Z := day * msPerDay + time.

(** The host's time zone: [LocalTZA] is the offset of local time from UTC,
    in milliseconds. *)
Class TimeZone := LocalTZA : Z.

Section Local.
Context {tz : TimeZone}.

Definition LocalTime (t : Z) : Z := t + LocalTZA.
Definition UTC (t : Z) : Z := t - LocalTZA.

(** [Date.prototype.getFullYear], [getMonth], [getDate]. *)
Definition getFullYear (t : Z) : Z := YearFromTime (LocalTime t).
Definition getMonth (t : Z) : Z := MonthFromTime (LocalTime t).
Definition getDate (t : Z) : Z := DateFromTime (LocalTime t).

(** [Date.prototype.setDate(dt)]. *)
Definition setDate (t dt : Z) : Z :=
  let lt := LocalTime t in
  UTC (MakeDate (MakeDay (YearFromTime lt) (MonthFromTime lt) dt) (TimeWithinDay lt)).

(** [Date.prototype.setHours(hour, min, sec, ms)]. *)
Definition setHours (t hour min sec ms : Z) : Z :=
  let lt := LocalTime t in
  UTC (MakeDate (Day lt) (MakeTime hour min sec ms)).

(** [new Date(year, month, date)]: a year from 0 to 99 means 1900 + year. *)
Definition newDate (year month date : Z) : Z :=
  let yr := if (0 <=? year) && (year <=? 99) then 1900 + year else year in
  UTC (MakeDate (MakeDay yr month date) (MakeTime 0 0 0 0)).

(** [Date.prototype.toDateString] prints week day, month, day of the month
    and year ("Tue Nov 03 2026"); the model keeps the four numbers. *)
Definition DateString : Type := Z * Z * Z * Z.

Definition toDateString (t : Z) : DateString :=
  let lt := LocalTime t in
  (WeekDay lt, MonthFromTime lt, DateFromTime lt, YearFromTime lt).

End Local.

(** Number of days of month [m] (0 = January) of year [y], by the
    calendar. *)
Definition daysInMonth (y m : Z) : Z :=
  match m with
  | 1 => if DaysInYear y =? 366 then 29 else 28
  | 3 | 5 | 8 | 10 => 30
  | _ => 31
  end.

End JSDate.

Import JSDate.

(** ** The calendar, as the specification words it *)

(** [leapDay y] is the extra day of February in year [y]. *)
Definition leapDay (y : Z) : Z := if DaysInYear y =? 366 then 1 else 0.

(** [civil d y m dt]: day number [d] is day [dt] of month [m] (0 = January)
    of year [y] in the proleptic Gregorian calendar. *)
Definition civil (d y m dt : Z) : Prop :=
  0 <= m <= 11 /\ 1 <= dt <= daysInMonth y m /\
  d = DayFromYear y + daysBeforeMonth (leapDay y) m + dt - 1.

(** "tomorrow = now + 1 day (calendar-correct, i.e. rolling into the next
    month when now.day is the last day of the month)", on year, month and
    day of the month. *)
Definition spec_tomorrow (y m d : Z) : Z * Z * Z :=
  if d <? daysInMonth y m then (y, m, d + 1)
  else if m <? 11 then (y, m + 1, 1)
  else (y + 1, 0, 1).

(** "dueTomorrow is true if dueDay == tomorrow.day, OR if tomorrow.day ==
    daysInTomorrowMonth AND dueDay > daysInTomorrowMonth". *)
Definition spec_dueTomorrow (y m d : Z) (dueDay : Z) : bool :=
  let '(ty, tm, td) := spec_tomorrow y m d in
  (dueDay =? td) || ((td =? daysInMonth ty tm) && (daysInMonth ty tm <? dueDay)).

(** ** [types.ts] *)

(** [amount] is a JavaScript number that no decision reads; it is kept as
    an integer.  [lastPaidDate] and [sentAt] are ISO strings written by
    [toISOString]; the model keeps the time value [new Date(s)] parses from
    them. *)
Module RecurringPayment.
Record t : Type := {
  id : string;
  serviceName : string;
  amount : Z;
  dueDay : Z;
  lastPaidDate : option Z
}.
End RecurringPayment.

Inductive LogStatus : Type := LogSuccess | LogFailed.

Module EmailLog.
Record t : Type := {
  id : string;
  paymentId : option string;
  serviceName : string;
  amount : Z;
  sentAt : Z;
  status : LogStatus
}.
End EmailLog.

#[global] Instance LogStatus_eq_dec : EqDecision LogStatus.
Proof. solve_decision. Defined.

(** JavaScript truthiness of a string: only the empty string is falsy. *)
Definition truthy (s : string) : bool :=
  match s with
  | EmptyString => false
  | String _ _ => true
  end.

(** ** [services/emailService.ts] *)

(** What [sendPaymentReminderEmail] resolves to. *)
Inductive SendResult : Type := Success | Error | MissingConfig.

#[global] Instance SendResult_eq_dec : EqDecision SendResult.
Proof. solve_decision. Defined.

Module EmailService.

Record Credentials : Type := {
  SERVICE_ID : string;
  TEMPLATE_ID : string;
  PUBLIC_KEY : string
}.

(** The constants of the file. *)
Definition credentials : Credentials :=
  {| SERVICE_ID := "service_65pdxnc";
     TEMPLATE_ID := "template_1pkh8w9";
     PUBLIC_KEY := "y1rvuqyUX9gDDhjH7" |}.

Definition startsWith (s pre : string) : bool := String.prefix pre s.

(** The guard at the head of [sendPaymentReminderEmail]: a credential is
    empty or still a placeholder. *)
Definition credentialsMissing (c : Credentials) : bool :=
  negb (truthy (SERVICE_ID c)) || startsWith (SERVICE_ID c) "YOUR_" ||
  negb (truthy (TEMPLATE_ID c)) || startsWith (TEMPLATE_ID c) "YOUR_" ||
  negb (truthy (PUBLIC_KEY c)) || startsWith (PUBLIC_KEY c) "YOUR_".

(** [sendPaymentReminderEmail]: [missing_config] when the guard fires;
    otherwise the template parameters are built and [emailjs.send] is
    awaited: [delivered] tells whether that promise resolved ([success]) or
    rejected ([error]).  The text of the message does not influence the
    result and is left out. *)
Definition sendPaymentReminderEmail (c : Credentials) (delivered : bool) : SendResult :=
  if credentialsMissing c then MissingConfig
  else if delivered then Success
  else Error.

End EmailService.

(** ** [hooks.ts]: [usePayments] *)

(** 'idle' | 'sending' | 'sent' | 'error' | 'already_sent' | 'missing_config' *)
Inductive EmailStatus : Type :=
  idle | sending | sent | error | already_sent | missing_config.

#[global] Instance EmailStatus_eq_dec : EqDecision EmailStatus.
Proof. solve_decision. Defined.

(** What a run does to the outside world, in order: a call of
    [sendPaymentReminderEmail] and a [setTimeout] pause of the send loop. *)
Inductive Effect : Type :=
  | Send (payment : RecurringPayment.t) (recipient : string)
  | Sleep (ms : Z).

(** The two keys of [localStorage] the dispatch reads and writes. *)
Record LocalStorage : Type := {
  lastEmailSentDate : option DateString;
  lastEmailSentTo : option string
}.

(** The state of the hook a run closes over. *)
Record State : Type := {
  payments : list RecurringPayment.t;
  emailLogs : list EmailLog.t;
  recipientEmail : string;
  lastSentTo : string;
  emailStatus : EmailStatus;
  isSendingRef : bool;
  localStorage : LocalStorage
}.

(** What a run cannot decide by itself: the result of the [k]-th call of
    [sendPaymentReminderEmail], the time that call takes, and the
    [Math.random] identifier of the [k]-th log entry. *)
Record Env : Type := {
  notify : nat -> RecurringPayment.t -> string -> SendResult;
  sendDuration : nat -> Z;
  randomId : nat -> string
}.

(** The environment in which the notifier is the function of
    [services/emailService.ts]. *)
Definition emailjsEnv (c : EmailService.Credentials)
    (delivered : nat -> bool) (duration : nat -> Z) (ids : nat -> string) : Env :=
  {| notify := fun k _ _ => EmailService.sendPaymentReminderEmail c (delivered k);
     sendDuration := duration;
     randomId := ids |}.

(** The local variables of the send loop. *)
Record Loop : Type := {
  hasErrors : bool;
  missingConfig : bool;
  sentCount : nat;
  logs : list EmailLog.t;
  clock : Z;
  effects : list Effect
}.

(** What the scheduling effect does when it runs:
    [setTimeout(checkAndSendEmails, ms)] or [checkAndSendEmails()]. *)
Inductive Scheduled : Type :=
  | SetTimeout (ms : Z)
  | CallNow.

Module Hooks.
Section Hooks.
Context {tz : TimeZone}.

(** The day-level constants both filters compute from the clock. *)
Record Days : Type := {
  currentDay : Z;
  currentMonth : Z;
  currentYear : Z;
  tomorrowDay : Z;
  tomorrowMonth : Z;
  tomorrowYear : Z;
  daysInTomorrowMonth : Z
}.

Definition days (now : Z) : Days :=
  let currentDay := getDate now in
  let currentMonth := getMonth now in
  let currentYear := getFullYear now in
  let tomorrow := setDate now (currentDay + 1) in
  let tomorrowDay := getDate tomorrow in
  let tomorrowMonth := getMonth tomorrow in
  let tomorrowYear := getFullYear tomorrow in
  let daysInTomorrowMonth := getDate (newDate tomorrowYear (tomorrowMonth + 1) 0) in
  {| currentDay := currentDay;
     currentMonth := currentMonth;
     currentYear := currentYear;
     tomorrowDay := tomorrowDay;
     tomorrowMonth := tomorrowMonth;
     tomorrowYear := tomorrowYear;
     daysInTomorrowMonth := daysInTomorrowMonth |}.

Definition isPaidThisMonth (c : Days) (p : RecurringPayment.t) : bool :=
  match RecurringPayment.lastPaidDate p with
  | Some paid =>
      (getMonth paid =? currentMonth c) && (getFullYear paid =? currentYear c)
  | None => false
  end.

Definition isToday (c : Days) (p : RecurringPayment.t) : bool :=
  RecurringPayment.dueDay p =? currentDay c.

Definition isTomorrow (c : Days) (p : RecurringPayment.t) : bool :=
  let isTomorrow := false in
  let isTomorrow :=
    if RecurringPayment.dueDay p =? tomorrowDay c then true else isTomorrow in
  let isTomorrow :=
    if (tomorrowDay c =? daysInTomorrowMonth c) &&
       (daysInTomorrowMonth c <? RecurringPayment.dueDay p)
    then true else isTomorrow in
  isTomorrow.

Definition isOverdue (c : Days) (p : RecurringPayment.t) : bool :=
  RecurringPayment.dueDay p <? currentDay c.

(** The predicate of [payments.filter] in both [duePayments] and
    [checkAndSendEmails]. *)
Definition actionable (c : Days) (p : RecurringPayment.t) : bool :=
  if isPaidThisMonth c p then false
  else isToday c p || isTomorrow c p || isOverdue c p.

(** [duePayments]; the two [new Date()] of the memo read the same clock. *)
Definition duePayments (now : Z) (payments : list RecurringPayment.t)
    : list RecurringPayment.t :=
  List.filter (actionable (days now)) payments.

(** [actionablePayments] of [checkAndSendEmails]. *)
Definition actionablePayments (now : Z) (payments : list RecurringPayment.t)
    : list RecurringPayment.t :=
  List.filter (actionable (days now)) payments.

Definition emailChanged (st : State) : bool :=
  negb (bool_decide (lastEmailSentTo (localStorage st) = Some (recipientEmail st))).

(** The body of [emailLogs.forEach]. *)
Definition addSent (todayStr : DateString) (acc : gset string) (log : EmailLog.t)
    : gset string :=
  let logDate := toDateString (EmailLog.sentAt log) in
  match EmailLog.paymentId log with
  | Some pid =>
      if bool_decide (logDate = todayStr) &&
         bool_decide (EmailLog.status log = LogSuccess) && truthy pid
      then {[ pid ]} ∪ acc
      else acc
  | None => acc
  end.

Definition sentPaymentIds (now : Z) (st : State) : gset string :=
  if emailChanged st then ∅
  else foldl (addSent (toDateString now)) ∅ (emailLogs st).

Definition paymentsToSend (now : Z) (st : State) : list RecurringPayment.t :=
  List.filter
    (fun p => negb (bool_decide (RecurringPayment.id p ∈ sentPaymentIds now st)))
    (actionablePayments now (payments st)).

Definition interSendDelay : Z := 2500.

(** The [for ... of paymentsToSend] loop; [len] is [paymentsToSend.length]
    and [k] counts the calls made so far. *)
Fixpoint sendLoop (env : Env) (recipient : string) (len : nat) (k : nat)
    (todo : list RecurringPayment.t) (s : Loop) : Loop :=
  match todo with
  | [] => s
  | payment :: rest =>
      let result := notify env k payment recipient in
      let returned := clock s + sendDuration env k in
      let called := effects s ++ [Send payment recipient] in
      match result with
      | MissingConfig =>
          {| hasErrors := hasErrors s; missingConfig := true;
             sentCount := sentCount s; logs := logs s;
             clock := returned; effects := called |}
      | _ =>
          let log :=
            {| EmailLog.id := randomId env k;
               EmailLog.paymentId := Some (RecurringPayment.id payment);
               EmailLog.serviceName := RecurringPayment.serviceName payment;
               EmailLog.amount := RecurringPayment.amount payment;
               EmailLog.sentAt := returned;
               EmailLog.status :=
                 if bool_decide (result = Success) then LogSuccess else LogFailed |} in
          let throttled := (1 <? len)%nat in
          sendLoop env recipient len (S k) rest
            {| hasErrors := if bool_decide (result = Error) then true else hasErrors s;
               missingConfig := missingConfig s;
               sentCount :=
                 if bool_decide (result = Success) then S (sentCount s) else sentCount s;
               logs := log :: logs s;
               clock := if throttled then returned + interSendDelay else returned;
               effects := if throttled then called ++ [Sleep interSendDelay] else called |}
      end
  end.

(** The loop variables before the first iteration. *)
Definition loopStart (now : Z) (st : State) : Loop :=
  {| hasErrors := false; missingConfig := false; sentCount := 0%nat;
     logs := emailLogs st; clock := now; effects := [] |}.

(** The send loop of the run started at [now] in state [st]. *)
Definition runLoop (env : Env) (now : Z) (st : State) : Loop :=
  let toSend := paymentsToSend now st in
  sendLoop env (recipientEmail st) (length toSend) 0%nat toSend (loopStart now st).

Definition withStatus (st : State) (status : EmailStatus) : State :=
  {| payments := payments st; emailLogs := emailLogs st;
     recipientEmail := recipientEmail st; lastSentTo := lastSentTo st;
     emailStatus := status; isSendingRef := isSendingRef st;
     localStorage := localStorage st |}.

(** The statements after the loop: the guard is released and the status
    resolved. *)
Definition resolve (todayStr : DateString) (st : State) (l : Loop) : State :=
  if missingConfig l then
    {| payments := payments st; emailLogs := logs l;
       recipientEmail := recipientEmail st; lastSentTo := lastSentTo st;
       emailStatus := missing_config; isSendingRef := false;
       localStorage := localStorage st |}
  else if (0 <? sentCount l)%nat && negb (hasErrors l) then
    {| payments := payments st; emailLogs := logs l;
       recipientEmail := recipientEmail st; lastSentTo := recipientEmail st;
       emailStatus := sent; isSendingRef := false;
       localStorage :=
         {| lastEmailSentDate := Some todayStr;
            lastEmailSentTo := Some (recipientEmail st) |} |}
  else if hasErrors l then
    {| payments := payments st; emailLogs := logs l;
       recipientEmail := recipientEmail st; lastSentTo := lastSentTo st;
       emailStatus := error; isSendingRef := false;
       localStorage := localStorage st |}
  else
    {| payments := payments st; emailLogs := logs l;
       recipientEmail := recipientEmail st; lastSentTo := lastSentTo st;
       emailStatus := sending; isSendingRef := false;
       localStorage := localStorage st |}.

(** [checkAndSendEmails], called at time [now] in state [st]: the state it
    leaves and what it did to the outside world.  The status [sending], the
    raised guard and [initEmailService()] last only while the loop runs and
    do not show in the state the run leaves. *)
Definition checkAndSendEmails (env : Env) (now : Z) (st : State)
    : State * list Effect :=
  if isSendingRef st then (st, [])
  else if (length (actionablePayments now (payments st)) =? 0)%nat then
    if bool_decide (emailStatus st = error) ||
       bool_decide (emailStatus st = missing_config)
    then (withStatus st idle, [])
    else (st, [])
  else if (length (paymentsToSend now st) =? 0)%nat then
    if negb (bool_decide (emailStatus st = sent)) &&
       negb (bool_decide (emailStatus st = already_sent))
    then (withStatus st already_sent, [])
    else (st, [])
  else
    let l := runLoop env now st in
    (resolve (toDateString now) st l, effects l).

(** The body of the scheduling effect, after [checkAndSendEmails] is
    defined. *)
Definition schedule (now : Z) (storage : LocalStorage) : Scheduled :=
  let lastSentDate := lastEmailSentDate storage in
  let todayStr := toDateString now in
  let targetTime := setHours now 6 0 0 0 in
  if bool_decide (lastSentDate = Some todayStr) then
    let tomorrowSixAm := setDate targetTime (getDate targetTime + 1) in
    let msUntilTomorrow := tomorrowSixAm - now in
    SetTimeout msUntilTomorrow
  else if targetTime <=? now then CallNow
  else
    let msUntilSix := targetTime - now in
    SetTimeout msUntilSix.

End Hooks.
End Hooks.

(** ** Vocabulary of the dispatch claims *)

(** The results the notifier gives when it is called for the items of
    [todo] one after the other, the first call being call number [k]. *)
Fixpoint outcomes (env : Env) (recipient : string) (k : nat)
    (todo : list RecurringPayment.t) : list SendResult :=
  match todo with
  | [] => []
  | payment :: rest =>
      notify env k payment recipient :: outcomes env recipient (S k) rest
  end.

(** One send as the outside world sees it: the call, followed by the
    inter-send pause when [paused]. *)
Definition sendThenPause (recipient : string) (paused : bool)
    (payment : RecurringPayment.t) : list Effect :=
  if paused then [Send payment recipient; Sleep Hooks.interSendDelay]
  else [Send payment recipient].

(** The log entries of [new] were written for the payments [ps], in that
    order (the log is newest first). *)
Definition loggedFor (new : list EmailLog.t) (ps : list RecurringPayment.t) : Prop :=
  map EmailLog.paymentId new = rev (map (fun p => Some (RecurringPayment.id p)) ps).

(** A log entry that puts [x] into the set of ids already served on the
    day [todayStr]: a success of that day whose [paymentId] is [x], a
    truthy string. *)
Definition servedBy {tz : TimeZone} (todayStr : DateString) (log : EmailLog.t)
    (x : string) : Prop :=
  toDateString (EmailLog.sentAt log) = todayStr /\
  EmailLog.status log = LogSuccess /\
  EmailLog.paymentId log = Some x /\
  truthy x = true.

(** Log entries that carry a [paymentId]. *)
Definition identified (logs : list EmailLog.t) : list EmailLog.t :=
  List.filter (fun log => bool_decide (is_Some (EmailLog.paymentId log))) logs.

Definition withLogs (st : State) (logs : list EmailLog.t) : State :=
  {| payments := payments st; emailLogs := logs;
     recipientEmail := recipientEmail st; lastSentTo := lastSentTo st;
     emailStatus := emailStatus st; isSendingRef := isSendingRef st;
     localStorage := localStorage st |}.

(** ** Sample data *)

(** Indian Standard Time, UTC+05:30 (no daylight saving). *)
Definition IST : TimeZone := 19800000.

(** 2025-04-29, 2025-04-30 and 2025-06-03, 06:00 IST. *)
Definition april29 : Z := 1745886600000.
Definition april30 : Z := 1745973000000.
Definition june3 : Z := 1748910600000.

Definition payment (id name : string) (amount dueDay : Z) (paid : option Z)
    : RecurringPayment.t :=
  {| RecurringPayment.id := id; RecurringPayment.serviceName := name;
     RecurringPayment.amount := amount; RecurringPayment.dueDay := dueDay;
     RecurringPayment.lastPaidDate := paid |}.

Definition rent : RecurringPayment.t := payment "0.rent" "Rent" 15000 31 None.
Definition netflix : RecurringPayment.t := payment "0.netflix" "Netflix" 650 5 None.
Definition gym : RecurringPayment.t := payment "0.gym" "Gym" 2000 1 None.
Definition insurance : RecurringPayment.t := payment "0.ins" "Insurance" 900 28 None.
Definition paidRent : RecurringPayment.t :=
  payment "0.rent" "Rent" 15000 31 (Some april29).

(** The default recipient of the hook. *)
Definition recipient : string := "doks23@gmail.com".

Definition nothingStored : LocalStorage :=
  {| lastEmailSentDate := None; lastEmailSentTo := None |}.

(** The date string of 29 April 2025, a Tuesday. *)
Definition april29Str : DateString := (2, 3, 29, 2025).

Definition sentOnApril29 : LocalStorage :=
  {| lastEmailSentDate := Some april29Str; lastEmailSentTo := Some recipient |}.

Definition hookState (ps : list RecurringPayment.t) (logs : list EmailLog.t)
    (storage : LocalStorage) : State :=
  {| payments := ps; emailLogs := logs; recipientEmail := recipient;
     lastSentTo := EmptyString; emailStatus := idle; isSendingRef := false;
     localStorage := storage |}.

(** [emailjs] configured as in the repository; [delivered] says which
    requests go through. *)
Definition delivering (delivered : nat -> bool) : Env :=
  emailjsEnv EmailService.credentials delivered (fun _ => 300) (fun _ => "log").

(** The placeholders the comment of [emailService.ts] speaks of. *)
Definition placeholders : EmailService.Credentials :=
  {| EmailService.SERVICE_ID := "YOUR_SERVICE_ID";
     EmailService.TEMPLATE_ID := "YOUR_TEMPLATE_ID";
     EmailService.PUBLIC_KEY := "YOUR_PUBLIC_KEY" |}.

Definition unconfigured : Env :=
  emailjsEnv placeholders (fun _ => true) (fun _ => 300) (fun _ => "log").

(** A success entry for the rent, written at [sentAt], and one that names
    no payment. *)
Definition rentLog (sentAt : Z) : EmailLog.t :=
  {| EmailLog.id := "log"; EmailLog.paymentId := Some "0.rent";
     EmailLog.serviceName := "Rent"; EmailLog.amount := 15000;
     EmailLog.sentAt := sentAt; EmailLog.status := LogSuccess |}.

Definition anonymousLog (sentAt : Z) : EmailLog.t :=
  {| EmailLog.id := "log"; EmailLog.paymentId := None;
     EmailLog.serviceName := "Rent"; EmailLog.amount := 15000;
     EmailLog.sentAt := sentAt; EmailLog.status := LogSuccess |}.


(** ** [hooks.ts]: the payment list of [usePayments] *)

(** [Partial<RecurringPayment>]: a field is [None] when the object has no
    such key.  [lastPaidDate] is the one optional field of the full record,
    so its key can be there and hold [undefined]: [Some None]. *)
Module PartialPayment.
Record t : Type := {
  id : option string;
  serviceName : option string;
  amount : option Z;
  dueDay : option Z;
  lastPaidDate : option (option Z)
}.
End PartialPayment.

Module PaymentStore.
Section PaymentStore.
Context {tz : TimeZone}.

(** [setPayments(prev => [...prev, payment])]. *)
Definition addPayment (payment : RecurringPayment.t) (prev : list RecurringPayment.t)
    : list RecurringPayment.t :=
  prev ++ [payment].

(** [setPayments(prev => prev.filter(p => p.id !== id))]. *)
Definition deletePayment (id : string) (prev : list RecurringPayment.t)
    : list RecurringPayment.t :=
  List.filter (fun p => negb (bool_decide (RecurringPayment.id p = id))) prev.

(** The object spread [{ ...p, ...updatedPayment }]. *)
Definition spread (p : RecurringPayment.t) (updatedPayment : PartialPayment.t)
    : RecurringPayment.t :=
  {| RecurringPayment.id :=
       default (RecurringPayment.id p) (PartialPayment.id updatedPayment);
     RecurringPayment.serviceName :=
       default (RecurringPayment.serviceName p)
         (PartialPayment.serviceName updatedPayment);
     RecurringPayment.amount :=
       default (RecurringPayment.amount p) (PartialPayment.amount updatedPayment);
     RecurringPayment.dueDay :=
       default (RecurringPayment.dueDay p) (PartialPayment.dueDay updatedPayment);
     RecurringPayment.lastPaidDate :=
       default (RecurringPayment.lastPaidDate p)
         (PartialPayment.lastPaidDate updatedPayment) |}.

(** [setPayments(prev => prev.map(p => p.id === id ? {...} : p))]. *)
Definition editPayment (id : string) (updatedPayment : PartialPayment.t)
    (prev : list RecurringPayment.t) : list RecurringPayment.t :=
  map (fun p => if bool_decide (RecurringPayment.id p = id)
                then spread p updatedPayment else p) prev.

Definition withLastPaidDate (p : RecurringPayment.t) (paid : option Z)
    : RecurringPayment.t :=
  {| RecurringPayment.id := RecurringPayment.id p;
     RecurringPayment.serviceName := RecurringPayment.serviceName p;
     RecurringPayment.amount := RecurringPayment.amount p;
     RecurringPayment.dueDay := RecurringPayment.dueDay p;
     RecurringPayment.lastPaidDate := paid |}.

(** [isPaidThisMonth] of [togglePaymentStatus], with [now] the clock of the
    click. *)
Definition paidInMonthOf (now : Z) (p : RecurringPayment.t) : bool :=
  match RecurringPayment.lastPaidDate p with
  | Some paid =>
      (getMonth paid =? getMonth now) && (getFullYear paid =? getFullYear now)
  | None => false
  end.

(** [togglePaymentStatus]; the [new Date()] that is stored reads the clock
    of the click. *)
Definition togglePaymentStatus (now : Z) (id : string)
    (prev : list RecurringPayment.t) : list RecurringPayment.t :=
  map (fun p =>
         if negb (bool_decide (RecurringPayment.id p = id)) then p
         else if paidInMonthOf now p then withLastPaidDate p None
         else withLastPaidDate p (Some now)) prev.

End PaymentStore.
End PaymentStore.

(** ** [services/emailService.ts]: what the reminder says *)

Module ReminderEmail.
Section ReminderEmail.
Context {tz : TimeZone}.

Definition isOverdue (now : Z) (payment : RecurringPayment.t) : bool :=
  RecurringPayment.dueDay payment <? getDate now.

(** The date [dateStr] is printed from: [dueDate] of the overdue branch,
    [tomorrow] of the other; every [new Date()] of the function reads the
    clock [now]. *)
Definition dueDate (now : Z) (payment : RecurringPayment.t) : Z :=
  if isOverdue now payment then setDate now (RecurringPayment.dueDay payment)
  else setDate now (getDate now + 1).

(** [toLocaleDateString] with month, day and year prints these three
    numbers of the local date; the model keeps them (month from 0). *)
Definition toLocaleDateString (t : Z) : Z * Z * Z :=
  (getMonth t, getDate t, getFullYear t).

Definition dateStr (now : Z) (payment : RecurringPayment.t) : Z * Z * Z :=
  toLocaleDateString (dueDate now payment).

End ReminderEmail.
End ReminderEmail.

(** ** [App.tsx]: the payments page *)

(** What [getDueInString] renders. *)
Inductive DueLabel : Type :=
  | LabelPaid
  | LabelToday
  | LabelOverdue (days : Z)
  | LabelTomorrow
  | LabelDays (diff : Z).

Module PaymentsPage.
Section PaymentsPage.
Context {tz : TimeZone}.

Definition getDueInString (now : Z) (dueDay : Z) (lastPaidDate : option Z) : DueLabel :=
  let currentDay := getDate now in
  let currentMonth := getMonth now in
  let currentYear := getFullYear now in
  let isPaidThisMonth :=
    match lastPaidDate with
    | Some paid => (getMonth paid =? currentMonth) && (getFullYear paid =? currentYear)
    | None => false
    end in
  if isPaidThisMonth then LabelPaid
  else if dueDay =? currentDay then LabelToday
  else
    let diff := dueDay - currentDay in
    if diff <? 0 then LabelOverdue (Z.abs diff)
    else if diff =? 1 then LabelTomorrow
    else LabelDays diff.

(** JavaScript truthiness of an optional string and of an optional number
    (the number is an integer here: only 0 and a missing value are falsy). *)
Definition truthyString (s : option string) : bool :=
  match s with
  | Some s => truthy s
  | None => false
  end.

Definition truthyNumber (n : option Z) : bool :=
  match n with
  | Some n => negb (n =? 0)
  | None => false
  end.

(** The body of [extracted.forEach] in [handleProcess]; [random] is the
    string [Math.random().toString(36)] would give for this row. *)
Definition processRow (random : string) (p : PartialPayment.t)
    (prev : list RecurringPayment.t) : list RecurringPayment.t :=
  if truthyString (PartialPayment.serviceName p) &&
     truthyNumber (PartialPayment.amount p) &&
     truthyNumber (PartialPayment.dueDay p)
  then
    PaymentStore.addPayment
      {| RecurringPayment.id :=
           if truthyString (PartialPayment.id p)
           then default EmptyString (PartialPayment.id p) else random;
         RecurringPayment.serviceName :=
           default EmptyString (PartialPayment.serviceName p);
         RecurringPayment.amount := default 0 (PartialPayment.amount p);
         RecurringPayment.dueDay := default 0 (PartialPayment.dueDay p);
         RecurringPayment.lastPaidDate :=
           default None (PartialPayment.lastPaidDate p) |}
      prev
  else prev.

(** [handleProcess] on the rows [extracted]; [random k] serves row [k]. *)
Fixpoint handleProcess (random : nat -> string) (k : nat)
    (extracted : list PartialPayment.t) (prev : list RecurringPayment.t)
    : list RecurringPayment.t :=
  match extracted with
  | [] => prev
  | p :: rest => handleProcess random (S k) rest (processRow (random k) p prev)
  end.

(** [startEdit]: [setEditForm({ ...payment })]. *)
Definition startEdit (payment : RecurringPayment.t) : PartialPayment.t :=
  {| PartialPayment.id := Some (RecurringPayment.id payment);
     PartialPayment.serviceName := Some (RecurringPayment.serviceName payment);
     PartialPayment.amount := Some (RecurringPayment.amount payment);
     PartialPayment.dueDay := Some (RecurringPayment.dueDay payment);
     PartialPayment.lastPaidDate :=
       option_map Some (RecurringPayment.lastPaidDate payment) |}.

End PaymentsPage.
End PaymentsPage.

(** A row of the extraction is kept when name, amount and due day are all
    truthy: the test of [handleProcess]. *)
Definition completeRow (p : PartialPayment.t) : bool :=
  PaymentsPage.truthyString (PartialPayment.serviceName p) &&
  PaymentsPage.truthyNumber (PartialPayment.amount p) &&
  PaymentsPage.truthyNumber (PartialPayment.dueDay p).

(** [sortedPayments]: [[...payments].sort((a, b) => a.dueDay - b.dueDay)].
    [Array.prototype.sort] is a stable sort; the model is the stable
    insertion sort for the comparator of the call. *)
Module SortedPayments.

Definition compare (a b : RecurringPayment.t) : Z :=
  RecurringPayment.dueDay a - RecurringPayment.dueDay b.

Fixpoint insert (x : RecurringPayment.t) (sorted : list RecurringPayment.t)
    : list RecurringPayment.t :=
  match sorted with
  | [] => [x]
  | y :: rest => if compare x y <=? 0 then x :: y :: rest else y :: insert x rest
  end.

Fixpoint sort (l : list RecurringPayment.t) : list RecurringPayment.t :=
  match l with
  | [] => []
  | x :: rest => insert x (sort rest)
  end.

Definition sortedPayments (payments : list RecurringPayment.t)
    : list RecurringPayment.t :=
  sort payments.

End SortedPayments.

(** The order the page wants: by due day. *)
Definition byDueDay (a b : RecurringPayment.t) : Prop :=
  RecurringPayment.dueDay a <= RecurringPayment.dueDay b.

(** ** [hooks.ts]: [useResizablePanel] *)

(** Widths and mouse coordinates are rational numbers: the quotient of
    [handleMouseMove] is exact here and rounded to a double in JavaScript.
    A division by zero gives 0 here and an infinity or NaN there; neither
    passes the test on the new width. *)
Module ResizablePanel.

Record State : Type := {
  panelWidth : Q;
  isResizing : bool
}.

Inductive MouseEvent : Type :=
  | MouseDown
  | MouseUp
  | MouseMove (clientX innerWidth : Q).

Definition useResizablePanel (initialWidth : Q) : State :=
  {| panelWidth := initialWidth; isResizing := false |}.

Definition handleMouseDown (st : State) : State :=
  {| panelWidth := panelWidth st; isResizing := true |}.

Definition handleMouseUp (st : State) : State :=
  {| panelWidth := panelWidth st; isResizing := false |}.

Definition Qlt_bool (x y : Q) : bool := negb (Qle_bool y x).

Definition handleMouseMove (clientX innerWidth : Q) (st : State) : State :=
  if negb (isResizing st) then st
  else
    let newWidth := ((clientX / innerWidth) * 100)%Q in
    if Qlt_bool 30 newWidth && Qlt_bool newWidth 80
    then {| panelWidth := newWidth; isResizing := isResizing st |}
    else st.

Definition handle (st : State) (e : MouseEvent) : State :=
  match e with
  | MouseDown => handleMouseDown st
  | MouseUp => handleMouseUp st
  | MouseMove clientX innerWidth => handleMouseMove clientX innerWidth st
  end.

End ResizablePanel.

(** ** More sample data *)

(** The date string of 28 April 2025, a Monday, and a store that recorded
    a dispatch to the current recipient on that day. *)
Definition april28Str : DateString := (1, 3, 28, 2025).

Definition sentOnApril28 : LocalStorage :=
  {| lastEmailSentDate := Some april28Str; lastEmailSentTo := Some recipient |}.

(** A store whose last dispatch went to another address. *)
Definition sentToOther : LocalStorage :=
  {| lastEmailSentDate := Some april28Str;
     lastEmailSentTo := Some "old@example.com" |}.

(** Every request goes through; the second request is rejected. *)
Definition allDelivered : Env := delivering (fun _ => true).
Definition secondRejected : Env := delivering (fun k => negb (k =? 1)%nat).

(** One hour after [april29]: 07:00 IST on 29 April 2025. *)
Definition april29Later : Z := april29 + 3600000.

(** Three rows of an extraction: a complete one, one without amount, one
    with due day 0. *)
Definition extractedRows : list PartialPayment.t :=
  [ {| PartialPayment.id := Some "pay-1-abc";
       PartialPayment.serviceName := Some "Netflix";
       PartialPayment.amount := Some 650;
       PartialPayment.dueDay := Some 5;
       PartialPayment.lastPaidDate := None |};
    {| PartialPayment.id := Some "pay-1-abd";
       PartialPayment.serviceName := Some "Gym";
       PartialPayment.amount := None;
       PartialPayment.dueDay := Some 1;
       PartialPayment.lastPaidDate := None |};
    {| PartialPayment.id := None;
       PartialPayment.serviceName := Some "Rent";
       PartialPayment.amount := Some 15000;
       PartialPayment.dueDay := Some 0;
       PartialPayment.lastPaidDate := None |} ].

(** A drag from the middle of a window 1000 wide to its right edge. *)
Definition dragRight : list ResizablePanel.MouseEvent :=
  [ ResizablePanel.MouseDown;
    ResizablePanel.MouseMove (700 # 1) (1000 # 1);
    ResizablePanel.MouseMove (999 # 1) (1000 # 1);
    ResizablePanel.MouseUp ].

(** ** Calendar facts about the [Date] operations *)

Ltac zdiv := Z.div_mod_to_equations; lia.

Lemma DaysInYear_cases y : DaysInYear y = 365 \/ DaysInYear y = 366.
Proof.
  unfold DaysInYear.
  repeat match goal with |- context [if ?b then _ else _] => destruct b end; auto.
Qed.

Lemma quadrennial_step y :
  (y + 1 - 1969) / 4 = (y - 1969) / 4 + (if y mod 4 =? 0 then 1 else 0).
Proof. destruct (Z.eqb_spec (y mod 4) 0); zdiv. Qed.

Lemma centennial_step y :
  (y + 1 - 1901) / 100 = (y - 1901) / 100 + (if y mod 100 =? 0 then 1 else 0).
Proof. destruct (Z.eqb_spec (y mod 100) 0); zdiv. Qed.

Lemma quadricentennial_step y :
  (y + 1 - 1601) / 400 = (y - 1601) / 400 + (if y mod 400 =? 0 then 1 else 0).
Proof. destruct (Z.eqb_spec (y mod 400) 0); zdiv. Qed.

(** A year is as long as [DaysInYear] says. *)
Lemma DayFromYear_succ y : DayFromYear (y + 1) = DayFromYear y + DaysInYear y.
Proof.
  unfold DayFromYear, DaysInYear.
  rewrite quadrennial_step, centennial_step, quadricentennial_step.
  destruct (Z.eqb_spec (y mod 4) 0), (Z.eqb_spec (y mod 100) 0),
    (Z.eqb_spec (y mod 400) 0); cbn [negb]; try lia; exfalso; zdiv.
Qed.

Lemma DayFromYear_mono y1 y2 : y1 <= y2 -> DayFromYear y1 <= DayFromYear y2.
Proof. unfold DayFromYear. intros. zdiv. Qed.

(** [YearFromTime] returns the year ECMA-262 defines: the one whose first
    day is the latest not after [Day t]. *)
Lemma YearFromTime_spec t :
  DayFromYear (YearFromTime t) <= Day t < DayFromYear (YearFromTime t + 1).
Proof.
  unfold YearFromTime. cbv zeta.
  set (d := Day t). clearbody d.
  set (y := 1970 + 400 * d / 146097).
  assert (Hy : 146097 * (y - 1970) <= 400 * d < 146097 * (y - 1969))
    by (subst y; zdiv).
  clearbody y.
  destruct (Z.leb_spec (DayFromYear (y + 1)) d) as [H1|H1].
  - split; [lia|]. unfold DayFromYear in *. zdiv.
  - destruct (Z.ltb_spec d (DayFromYear y)) as [H2|H2].
    + replace (y - 1 + 1) with y by lia. split; [|lia].
      unfold DayFromYear in *. zdiv.
    + lia.
Qed.

Lemma YearFromTime_unique t y :
  DayFromYear y <= Day t < DayFromYear (y + 1) -> YearFromTime t = y.
Proof.
  intros Hy. pose proof (YearFromTime_spec t) as Hs.
  destruct (Z.lt_trichotomy (YearFromTime t) y) as [Hlt|[Heq|Hgt]]; [|done|].
  - pose proof (DayFromYear_mono (YearFromTime t + 1) y). lia.
  - pose proof (DayFromYear_mono (y + 1) (YearFromTime t)). lia.
Qed.

Ltac month_cases m :=
  let H := fresh in
  assert (H : m = 0 \/ m = 1 \/ m = 2 \/ m = 3 \/ m = 4 \/ m = 5 \/ m = 6 \/
              m = 7 \/ m = 8 \/ m = 9 \/ m = 10 \/ m = 11) by lia;
  repeat (destruct H as [H|H]; [subst m|]); [..|subst m].

Lemma InLeapYear_leapDay t : InLeapYear t = leapDay (YearFromTime t).
Proof. done. Qed.

(** The fields the getters read off a time value are its calendar date. *)
Lemma civil_fields t :
  civil (Day t) (YearFromTime t) (MonthFromTime t) (DateFromTime t).
Proof.
  pose proof (YearFromTime_spec t) as Hs.
  rewrite DayFromYear_succ in Hs.
  unfold civil, DateFromTime, MonthFromTime, daysInMonth.
  rewrite InLeapYear_leapDay. unfold DayWithinYear, leapDay.
  set (y := YearFromTime t) in *. set (d := Day t) in *.
  destruct (DaysInYear_cases y) as [E|E]; rewrite E in *; cbn [Z.eqb Pos.eqb];
    repeat match goal with
           | |- context [?a <? ?b] => destruct (Z.ltb_spec a b); cbn
           end; lia.
Qed.

(** Conversely a calendar date determines the fields. *)
Lemma civil_unique t y m dt :
  civil (Day t) y m dt ->
  YearFromTime t = y /\ MonthFromTime t = m /\ DateFromTime t = dt.
Proof.
  intros (Hm & Hdt & Hd).
  assert (Hy : YearFromTime t = y).
  { apply YearFromTime_unique. rewrite DayFromYear_succ.
    unfold daysInMonth, leapDay in *.
    destruct (DaysInYear_cases y) as [E|E]; rewrite E in *;
      cbn [Z.eqb Pos.eqb] in *; month_cases m; cbn in *; lia. }
  split; [done|].
  unfold DateFromTime, MonthFromTime. rewrite InLeapYear_leapDay.
  unfold DayWithinYear. rewrite Hy, Hd. clear Hd Hy.
  unfold daysInMonth, leapDay in *.
  destruct (DaysInYear_cases y) as [E|E]; rewrite E in *;
    cbn [Z.eqb Pos.eqb] in *; month_cases m; cbn in Hdt |- *;
    repeat match goal with
           | |- context [?a <? ?b] => destruct (Z.ltb_spec a b); cbn
           end; lia.
Qed.

Lemma daysBeforeMonth_succ y m :
  0 <= m < 11 ->
  daysBeforeMonth (leapDay y) (m + 1) = daysBeforeMonth (leapDay y) m + daysInMonth y m.
Proof.
  intros Hm. unfold daysInMonth, leapDay.
  destruct (DaysInYear_cases y) as [E|E]; rewrite E; cbn [Z.eqb Pos.eqb];
    month_cases m; try lia; reflexivity.
Qed.

Lemma daysBeforeMonth_december y :
  daysBeforeMonth (leapDay y) 11 + 31 = DaysInYear y.
Proof.
  unfold leapDay. destruct (DaysInYear_cases y) as [E|E]; rewrite E; cbn; lia.
Qed.

Lemma daysInMonth_bounds y m : 28 <= daysInMonth y m <= 31.
Proof.
  unfold daysInMonth.
  repeat match goal with |- context [match ?x with _ => _ end] => destruct x end; lia.
Qed.

(** The day after a calendar date is the date [spec_tomorrow] names. *)
Lemma civil_succ d y m dt :
  civil d y m dt ->
  let '(y', m', dt') := spec_tomorrow y m dt in civil (d + 1) y' m' dt'.
Proof.
  intros (Hm & Hdt & Hd). unfold spec_tomorrow.
  destruct (Z.ltb_spec dt (daysInMonth y m)) as [Hlt|Hge].
  - unfold civil. lia.
  - assert (dt = daysInMonth y m) by lia. subst dt.
    destruct (Z.ltb_spec m 11) as [Hm'|Hm'].
    + unfold civil. rewrite daysBeforeMonth_succ by lia.
      pose proof (daysInMonth_bounds y (m + 1)). lia.
    + assert (m = 11) by lia. subst m.
      pose proof (daysBeforeMonth_december y) as Hdec.
      unfold civil. rewrite DayFromYear_succ. cbn in *. lia.
Qed.

Lemma MakeDay_in_year y m dt :
  0 <= m <= 11 ->
  MakeDay y m dt = DayFromYear y + daysBeforeMonth (leapDay y) m + dt - 1.
Proof.
  intros Hm. unfold MakeDay. cbv zeta.
  rewrite (Z.div_small m 12), (Z.mod_small m 12), Z.add_0_r by lia. done.
Qed.

(** Day 0 of the month after [m] is the last day of month [m]:
    the idiom [new Date(y, m + 1, 0)]. *)
Lemma MakeDay_day_zero y m :
  0 <= m <= 11 -> civil (MakeDay y (m + 1) 0) y m (daysInMonth y m).
Proof.
  intros Hm. pose proof (daysInMonth_bounds y m).
  split; [done|]. split; [lia|].
  destruct (Z.eq_dec m 11) as [->|Hne].
  - unfold MakeDay. cbv zeta.
    replace ((11 + 1) / 12) with 1 by done. replace ((11 + 1) mod 12) with 0 by done.
    rewrite DayFromYear_succ. pose proof (daysBeforeMonth_december y).
    cbn in *. lia.
  - rewrite MakeDay_in_year, daysBeforeMonth_succ by lia. lia.
Qed.

Lemma Day_MakeDate d tod : 0 <= tod < msPerDay -> Day (MakeDate d tod) = d.
Proof. unfold Day, MakeDate, msPerDay. intros. zdiv. Qed.

Lemma TimeWithinDay_MakeDate d tod :
  0 <= tod < msPerDay -> TimeWithinDay (MakeDate d tod) = tod.
Proof. unfold TimeWithinDay, MakeDate, msPerDay. intros. zdiv. Qed.

Lemma TimeWithinDay_bounds t : 0 <= TimeWithinDay t < msPerDay.
Proof. unfold TimeWithinDay, msPerDay. zdiv. Qed.

Lemma Day_TimeWithinDay t : t = MakeDate (Day t) (TimeWithinDay t).
Proof. unfold MakeDate, Day, TimeWithinDay, msPerDay. zdiv. Qed.

(** A clock at or after the epoch reads a year from 1970 on. *)
Lemma YearFromTime_epoch t : 0 <= t -> 1970 <= YearFromTime t.
Proof.
  intros Ht. pose proof (YearFromTime_spec t) as [_ Hs].
  assert (0 <= Day t) by (unfold Day, msPerDay; zdiv).
  destruct (Z.le_gt_cases 1970 (YearFromTime t)) as [|Hlt]; [done|].
  pose proof (DayFromYear_mono (YearFromTime t + 1) 1970).
  replace (DayFromYear 1970) with 0 in * by done. lia.
Qed.

Section Calendar.
Context {tz : TimeZone}.

Lemma LocalTime_UTC t : LocalTime (UTC t) = t.
Proof. unfold LocalTime, UTC. lia. Qed.

(** The calendar date the getters read at [t]. *)
Lemma getters_civil t :
  civil (Day (LocalTime t)) (getFullYear t) (getMonth t) (getDate t).
Proof. apply civil_fields. Qed.

(** [setDate(getDate() + 1)] moves to the next day and keeps the time of
    day. *)
Lemma setDate_succ_local t :
  LocalTime (setDate t (getDate t + 1)) =
  MakeDate (Day (LocalTime t) + 1) (TimeWithinDay (LocalTime t)).
Proof.
  unfold setDate. cbv zeta. rewrite LocalTime_UTC. f_equal.
  destruct (getters_civil t) as (Hm & _ & Hd).
  unfold getFullYear, getMonth, getDate in *.
  rewrite MakeDay_in_year by done. lia.
Qed.

Lemma setDate_succ_Day t :
  Day (LocalTime (setDate t (getDate t + 1))) = Day (LocalTime t) + 1.
Proof.
  rewrite setDate_succ_local. apply Day_MakeDate, TimeWithinDay_bounds.
Qed.

(** [tomorrow] of the source is the calendar's tomorrow. *)
Lemma setDate_succ_fields t :
  let tomorrow := setDate t (getDate t + 1) in
  (getFullYear tomorrow, getMonth tomorrow, getDate tomorrow) =
  spec_tomorrow (getFullYear t) (getMonth t) (getDate t).
Proof.
  cbv zeta. pose proof (civil_succ _ _ _ _ (getters_civil t)) as Hc.
  destruct (spec_tomorrow _ _ _) as [[y' m'] d'].
  rewrite <- setDate_succ_Day in Hc.
  apply civil_unique in Hc as (Hy & Hm & Hd).
  rewrite <- Hy, <- Hm, <- Hd. reflexivity.
Qed.

(** [new Date(y, m + 1, 0).getDate()] is the length of month [m], in the
    year the constructor makes of [y]. *)
Lemma getDate_newDate_day_zero y m :
  0 <= m <= 11 ->
  getDate (newDate y (m + 1) 0) =
  daysInMonth (if (0 <=? y) && (y <=? 99) then 1900 + y else y) m.
Proof.
  intros Hm. unfold getDate, newDate. cbv zeta. rewrite LocalTime_UTC.
  set (yr := if (0 <=? y) && (y <=? 99) then 1900 + y else y).
  pose proof (MakeDay_day_zero yr m Hm) as Hc.
  rewrite <- (Day_MakeDate (MakeDay yr (m + 1) 0) (MakeTime 0 0 0 0)) in Hc by done.
  apply civil_unique in Hc as (_ & _ & ->). done.
Qed.

End Calendar.

(** ** The due-payment filter *)

Section DueItems.
Context {tz : TimeZone}.
Import Hooks.

Lemma duePayments_actionablePayments now ps :
  actionablePayments now ps = duePayments now ps.
Proof. reflexivity. Qed.

Lemma In_duePayments now ps p :
  In p (duePayments now ps) <-> In p ps /\ actionable (days now) p = true.
Proof. unfold duePayments. apply filter_In. Qed.

(** The fields of [days], spelled out. *)
Lemma days_fields now :
  let tomorrow := setDate now (getDate now + 1) in
  days now =
  {| currentDay := getDate now;
     currentMonth := getMonth now;
     currentYear := getFullYear now;
     tomorrowDay := getDate tomorrow;
     tomorrowMonth := getMonth tomorrow;
     tomorrowYear := getFullYear tomorrow;
     daysInTomorrowMonth :=
       getDate (newDate (getFullYear tomorrow) (getMonth tomorrow + 1) 0) |}.
Proof. reflexivity. Qed.

Lemma days_tomorrow now :
  (tomorrowYear (days now), tomorrowMonth (days now), tomorrowDay (days now)) =
  spec_tomorrow (getFullYear now) (getMonth now) (getDate now).
Proof.
  rewrite days_fields. cbv beta iota zeta delta [tomorrowYear tomorrowMonth tomorrowDay].
  apply setDate_succ_fields.
Qed.

Lemma tomorrowMonth_bounds now : 0 <= tomorrowMonth (days now) <= 11.
Proof.
  rewrite days_fields. cbv beta iota zeta delta [tomorrowMonth].
  apply getters_civil.
Qed.

Lemma tomorrowDay_bounds now :
  1 <= tomorrowDay (days now) <=
  daysInMonth (tomorrowYear (days now)) (tomorrowMonth (days now)).
Proof.
  rewrite days_fields. cbv beta iota zeta delta [tomorrowYear tomorrowMonth tomorrowDay].
  apply getters_civil.
Qed.

(** [daysInTomorrowMonth] is the length of tomorrow's month in the year
    the [Date] constructor makes of [tomorrowYear]. *)
Lemma days_daysInTomorrowMonth_any now :
  let y := tomorrowYear (days now) in
  daysInTomorrowMonth (days now) =
  daysInMonth (if (0 <=? y) && (y <=? 99) then 1900 + y else y)
    (tomorrowMonth (days now)).
Proof.
  pose proof (tomorrowMonth_bounds now) as Hm. revert Hm.
  rewrite days_fields.
  cbv beta iota zeta delta [tomorrowYear tomorrowMonth daysInTomorrowMonth].
  apply getDate_newDate_day_zero.
Qed.

(** With the clock at or after the epoch, [daysInTomorrowMonth] is the
    length of tomorrow's month. *)
Lemma days_daysInTomorrowMonth now :
  0 <= LocalTime now ->
  daysInTomorrowMonth (days now) =
  daysInMonth (tomorrowYear (days now)) (tomorrowMonth (days now)).
Proof.
  intros Hnow. rewrite days_daysInTomorrowMonth_any. cbv zeta.
  assert (Hy : 1970 <= tomorrowYear (days now)).
  { rewrite days_fields. cbv beta iota zeta delta [tomorrowYear].
    apply YearFromTime_epoch. rewrite setDate_succ_local.
    pose proof (TimeWithinDay_bounds (LocalTime now)) as Htod.
    assert (Hday : 0 <= Day (LocalTime now)) by (unfold Day, msPerDay; zdiv).
    revert Htod Hday.
    generalize (TimeWithinDay (LocalTime now)), (Day (LocalTime now)).
    unfold MakeDate, msPerDay. lia. }
  revert Hy. generalize (tomorrowMonth (days now)), (tomorrowYear (days now)).
  intros m y Hy. destruct (Z.leb_spec y 99); [lia|].
  rewrite andb_false_r. reflexivity.
Qed.

(** Whatever the year, [daysInTomorrowMonth] is the length of some month. *)
Lemma daysInTomorrowMonth_bounds now : 28 <= daysInTomorrowMonth (days now) <= 31.
Proof.
  rewrite days_daysInTomorrowMonth_any. apply daysInMonth_bounds.
Qed.

(** Before the last day of the month, tomorrow is the next day of the
    month. *)
Lemma tomorrowDay_succ now :
  getDate now < daysInMonth (getFullYear now) (getMonth now) ->
  tomorrowDay (days now) = getDate now + 1 /\
  tomorrowMonth (days now) = getMonth now /\
  tomorrowYear (days now) = getFullYear now.
Proof.
  pose proof (days_tomorrow now) as Ht. revert Ht.
  generalize (tomorrowYear (days now)), (tomorrowMonth (days now)),
    (tomorrowDay (days now)), (getFullYear now), (getMonth now), (getDate now).
  intros y' m' d' y m d Ht Hlt. unfold spec_tomorrow in Ht.
  destruct (Z.ltb_spec d (daysInMonth y m)); [|lia].
  injection Ht as Hy Hm Hd. auto.
Qed.

End DueItems.

Section DueItemClaims.
Context {tz : TimeZone}.
Import Hooks.

Lemma isTomorrow_unfold c p :
  isTomorrow c p =
  (RecurringPayment.dueDay p =? tomorrowDay c) ||
  ((tomorrowDay c =? daysInTomorrowMonth c) &&
   (daysInTomorrowMonth c <? RecurringPayment.dueDay p)).
Proof.
  unfold isTomorrow.
  destruct (RecurringPayment.dueDay p =? tomorrowDay c),
    ((tomorrowDay c =? daysInTomorrowMonth c) &&
     (daysInTomorrowMonth c <? RecurringPayment.dueDay p)); reflexivity.
Qed.

(** The flag against the specification's function, for use in other
    proofs. *)
Lemma isTomorrow_spec_dueTomorrow now p :
  0 <= LocalTime now ->
  isTomorrow (days now) p =
  spec_dueTomorrow (getFullYear now) (getMonth now) (getDate now)
    (RecurringPayment.dueDay p).
Proof.
  intros Hnow. rewrite isTomorrow_unfold, (days_daysInTomorrowMonth now Hnow).
  unfold spec_dueTomorrow. rewrite <- days_tomorrow. reflexivity.
Qed.

(** C6. With the clock at or after the epoch, the [isTomorrow] flag of the
    filter is the specification's [dueTomorrow]: the due day is the day of
    the month of the calendar's tomorrow, or that tomorrow is the last day
    of its month and the due day is greater than the length of that
    month. *)
Theorem isTomorrow_calendar now p :
  0 <= LocalTime now ->
  isTomorrow (days now) p =
  spec_dueTomorrow (getFullYear now) (getMonth now) (getDate now)
    (RecurringPayment.dueDay p).
Proof.
  intros Hnow. rewrite isTomorrow_unfold, (days_daysInTomorrowMonth now Hnow).
  unfold spec_dueTomorrow. rewrite <- days_tomorrow. reflexivity.
Qed.

(** C1 (amended). On the day before the last day of a 30-day month (the
    29th), an obligation due on day 31 that is not settled this month is
    flagged due tomorrow and is in the actionable set. *)
Theorem due31_flagged_on_eve_of_last_day now p ps :
  0 <= LocalTime now ->
  daysInMonth (getFullYear now) (getMonth now) = 30 ->
  getDate now = 29 ->
  RecurringPayment.dueDay p = 31 ->
  isPaidThisMonth (days now) p = false ->
  In p ps ->
  isTomorrow (days now) p = true /\ In p (duePayments now ps).
Proof.
  intros Hnow Hdim Hday Hdue Hpaid Hin.
  assert (Ht : isTomorrow (days now) p = true).
  { rewrite (isTomorrow_spec_dueTomorrow now p Hnow), Hdue, Hday.
    unfold spec_dueTomorrow, spec_tomorrow. rewrite Hdim.
    change (29 <? 30) with true. cbv beta iota. rewrite Hdim. reflexivity. }
  split; [exact Ht|].
  apply In_duePayments. split; [exact Hin|].
  unfold actionable. rewrite Hpaid, Ht, orb_true_r. reflexivity.
Qed.

Lemma currentDay_days now : currentDay (days now) = getDate now.
Proof. reflexivity. Qed.

Lemma isPaidThisMonth_settled now p paid :
  RecurringPayment.lastPaidDate p = Some paid ->
  getMonth paid = getMonth now ->
  getFullYear paid = getFullYear now ->
  isPaidThisMonth (days now) p = true.
Proof.
  intros Hpaid Hm Hy. unfold isPaidThisMonth. rewrite Hpaid, days_fields.
  cbv beta iota zeta delta [currentMonth currentYear].
  rewrite Hm, Hy, !Z.eqb_refl. reflexivity.
Qed.

(** C8. An obligation whose settlement timestamp is present and falls in
    the current calendar month and year is in neither actionable list,
    whatever its due day. *)
Theorem settled_this_month_excluded now p ps paid :
  RecurringPayment.lastPaidDate p = Some paid ->
  getMonth paid = getMonth now ->
  getFullYear paid = getFullYear now ->
  ~ In p (duePayments now ps) /\ ~ In p (actionablePayments now ps).
Proof.
  intros Hpaid Hm Hy.
  pose proof (isPaidThisMonth_settled now p paid Hpaid Hm Hy) as Hs.
  assert (Hout : ~ In p (duePayments now ps)); [|split; exact Hout].
  intros [_ Hact]%In_duePayments. unfold actionable in Hact.
  rewrite Hs in Hact. discriminate Hact.
Qed.

(** On day 3 the calendar's tomorrow is day 4, which is not the end of a
    month. *)
Lemma day3_tomorrow now :
  getDate now = 3 ->
  tomorrowDay (days now) = 4 /\ tomorrowDay (days now) <> daysInTomorrowMonth (days now).
Proof.
  intros Hday. pose proof (daysInMonth_bounds (getFullYear now) (getMonth now)) as Hb.
  pose proof (daysInTomorrowMonth_bounds now) as Hdim.
  destruct (tomorrowDay_succ now) as (Ht & _ & _); [rewrite Hday; lia|].
  rewrite Ht, Hday. split; [reflexivity|].
  revert Hdim. generalize (daysInTomorrowMonth (days now)). intros; lia.
Qed.

(** C7. The [isOverdue] flag is the numeric comparison of the due day with
    today's day of the month; so an obligation due on day 28 is not in the
    actionable list on day 3 of a month. *)
Theorem overdue_is_numeric now p ps :
  (isOverdue (days now) p = true <-> RecurringPayment.dueDay p < getDate now) /\
  (RecurringPayment.dueDay p = 28 -> getDate now = 3 ->
   isOverdue (days now) p = false /\ ~ In p (duePayments now ps)).
Proof.
  split.
  - unfold isOverdue. rewrite currentDay_days. apply Z.ltb_lt.
  - intros Hdue Hday. destruct (day3_tomorrow now Hday) as [Ht Hne].
    assert (Hover : isOverdue (days now) p = false).
    { unfold isOverdue. rewrite currentDay_days, Hdue, Hday. reflexivity. }
    split; [exact Hover|].
    intros [_ Hact]%In_duePayments. unfold actionable in Hact.
    destruct (isPaidThisMonth (days now) p); [discriminate Hact|].
    rewrite Hover, isTomorrow_unfold in Hact. unfold isToday in Hact.
    rewrite currentDay_days, Hdue, Hday in Hact.
    apply Z.eqb_neq in Hne. rewrite Hne, Ht in Hact. discriminate Hact.
Qed.

End DueItemClaims.

(** C1, as stated, fails on 30 April 2025: that day is the last of a
    30-day month, the rent is due on day 31 and not settled, and the filter
    leaves it out, flagged neither due tomorrow nor anything else. *)
Lemma due31_dropped_on_last_day :
  @getDate IST april30 = 30 /\
  daysInMonth (@getFullYear IST april30) (@getMonth IST april30) = 30 /\
  RecurringPayment.dueDay rent = 31 /\
  @Hooks.isPaidThisMonth IST (@Hooks.days IST april30) rent = false /\
  Hooks.isTomorrow (@Hooks.days IST april30) rent = false /\
  @Hooks.duePayments IST april30 [rent] = [].
Proof. vm_compute. repeat split. Qed.

Lemma due31_flagged_on_eve_of_last_day_witness :
  Hooks.isTomorrow (@Hooks.days IST april29) rent = true /\
  In rent (@Hooks.duePayments IST april29 [rent; netflix]).
Proof.
  apply (@due31_flagged_on_eve_of_last_day IST april29 rent [rent; netflix]).
  - vm_compute. discriminate.
  - vm_compute. reflexivity.
  - vm_compute. reflexivity.
  - reflexivity.
  - vm_compute. reflexivity.
  - left. reflexivity.
Defined.

Lemma isTomorrow_calendar_witness :
  Hooks.isTomorrow (@Hooks.days IST april30) gym =
  spec_dueTomorrow (@getFullYear IST april30) (@getMonth IST april30)
    (@getDate IST april30) (RecurringPayment.dueDay gym).
Proof.
  apply (@isTomorrow_calendar IST april30 gym).
  vm_compute. discriminate.
Defined.

Lemma settled_this_month_excluded_witness :
  ~ In paidRent (@Hooks.duePayments IST april30 [paidRent; gym]) /\
  ~ In paidRent (@Hooks.actionablePayments IST april30 [paidRent; gym]).
Proof.
  apply (@settled_this_month_excluded IST april30 paidRent [paidRent; gym] april29).
  - reflexivity.
  - vm_compute. reflexivity.
  - vm_compute. reflexivity.
Defined.

Lemma overdue_is_numeric_witness :
  Hooks.isOverdue (@Hooks.days IST june3) insurance = false /\
  ~ In insurance (@Hooks.duePayments IST june3 [insurance; gym]).
Proof.
  apply (proj2 (@overdue_is_numeric IST june3 insurance [insurance; gym])).
  - reflexivity.
  - vm_compute. reflexivity.
Defined.

(** ** The send loop *)

Section SendLoop.
Context {tz : TimeZone}.
Import Hooks.
Variables (env : Env) (recipient : string) (len : nat).

Ltac results :=
  try change (bool_decide (Success = Success)) with true in *;
  try change (bool_decide (Success = Error)) with false in *;
  try change (bool_decide (Error = Success)) with false in *;
  try change (bool_decide (Error = Error)) with true in *.

Lemma sendLoop_abort k payment rest s :
  notify env k payment recipient = MissingConfig ->
  sendLoop env recipient len k (payment :: rest) s =
  {| hasErrors := hasErrors s; missingConfig := true;
     sentCount := sentCount s; logs := logs s;
     clock := clock s + sendDuration env k;
     effects := effects s ++ [Send payment recipient] |}.
Proof. intros H. cbn [sendLoop]. rewrite H. reflexivity. Qed.

(** Items that do not report [missing_config] are all attempted, and the
    loop goes on with what follows them. *)
Lemma sendLoop_app pre rest : forall k s,
  ~ In MissingConfig (outcomes env recipient k pre) ->
  sendLoop env recipient len k (pre ++ rest) s =
  sendLoop env recipient len (k + length pre) rest (sendLoop env recipient len k pre s).
Proof.
  induction pre as [|p pre IH]; intros k s Hfree.
  - cbn. by rewrite Nat.add_0_r.
  - cbn [outcomes] in Hfree. cbn [app sendLoop length].
    destruct (notify env k p recipient) eqn:E.
    + rewrite IH by (intros ?; apply Hfree; by right). f_equal. lia.
    + rewrite IH by (intros ?; apply Hfree; by right). f_equal. lia.
    + exfalso. apply Hfree. by left.
Qed.

(** What a loop that meets no [missing_config] leaves behind. *)
Lemma sendLoop_complete todo : forall k s,
  let outs := outcomes env recipient k todo in
  let l := sendLoop env recipient len k todo s in
  ~ In MissingConfig outs ->
  missingConfig l = missingConfig s /\
  (hasErrors l = true <-> hasErrors s = true \/ In Error outs) /\
  ((0 < sentCount l)%nat <-> (0 < sentCount s)%nat \/ In Success outs) /\
  (exists new, logs l = new ++ logs s /\ loggedFor new todo) /\
  effects l =
    effects s ++ flat_map (sendThenPause recipient (1 <? len)%nat) todo.
Proof.
  induction todo as [|p todo IH]; intros k s outs l Hfree.
  - subst outs l. cbn. repeat split; try tauto.
    + by exists [].
    + by rewrite app_nil_r.
  - subst outs l. cbn [outcomes] in *. cbn [sendLoop].
    assert (Hne : notify env k p recipient <> MissingConfig)
      by (intros E; apply Hfree; by left).
    assert (Hrest : ~ In MissingConfig (outcomes env recipient (S k) todo))
      by (intros ?; apply Hfree; by right).
    destruct (notify env k p recipient) eqn:E; [| |done]; results;
      (match goal with
       | |- context [sendLoop env recipient len (S k) todo ?s1] =>
           specialize (IH (S k) s1 Hrest)
       end;
      cbn [hasErrors missingConfig sentCount logs effects] in IH;
      destruct IH as (Hm & He & Hs & (new & Hl & Hn) & Hf);
      (split; [exact Hm|]; split; [|split; [|split]]);
      [ rewrite He; cbn [In]; intuition congruence
      | rewrite Hs; cbn [In]; intuition (congruence || lia)
      | eexists (new ++ [_]); split;
        [ rewrite Hl, <- app_assoc; reflexivity
        | unfold loggedFor in *; rewrite map_app, Hn; reflexivity ]
      | rewrite Hf; cbn [flat_map]; unfold sendThenPause at 2;
        destruct (1 <? len)%nat; rewrite <- ?app_assoc; reflexivity ]).
Qed.

End SendLoop.

(** ** The dedup set *)

Section Dedup.
Context {tz : TimeZone}.
Import Hooks.

Lemma elem_of_addSent todayStr acc log x :
  x ∈ addSent todayStr acc log <-> x ∈ acc \/ servedBy todayStr log x.
Proof.
  unfold addSent, servedBy.
  generalize (toDateString (EmailLog.sentAt log)). intros logDate.
  destruct (EmailLog.paymentId log) as [pid|];
    [|intuition discriminate].
  destruct (bool_decide_reflect (logDate = todayStr)) as [Hd|Hd]; cbn [andb];
    [|intuition congruence].
  destruct (bool_decide_reflect (EmailLog.status log = LogSuccess)) as [Hs|Hs];
    cbn [andb]; [|intuition congruence].
  destruct (truthy pid) eqn:Et.
  - rewrite elem_of_union, elem_of_singleton. split.
    + intros [->|Hacc]; [right|left]; auto.
    + intros [Hacc|(_ & _ & [= ->] & _)]; auto.
  - split; [auto|]. intros [Hacc|(_ & _ & [= ->] & Hx)]; [done|congruence].
Qed.

Lemma elem_of_foldl_addSent todayStr logs : forall acc x,
  x ∈ foldl (addSent todayStr) acc logs <->
  x ∈ acc \/ exists log, In log logs /\ servedBy todayStr log x.
Proof.
  induction logs as [|log logs IH]; intros acc x; cbn [foldl In].
  - split; [auto|]. intros [Hacc|(log & [] & _)]. done.
  - rewrite IH, elem_of_addSent. split.
    + intros [[Hacc|Hs]|(l & Hl & Hs)]; eauto 6.
    + intros [Hacc|(l & [<-|Hl] & Hs)]; eauto 6.
Qed.

Lemma elem_of_sentPaymentIds now st x :
  x ∈ sentPaymentIds now st <->
  emailChanged st = false /\
  exists log, In log (emailLogs st) /\ servedBy (toDateString now) log x.
Proof.
  unfold sentPaymentIds. generalize (toDateString now). intros todayStr.
  destruct (emailChanged st).
  - rewrite elem_of_empty. intuition discriminate.
  - rewrite elem_of_foldl_addSent, elem_of_empty. tauto.
Qed.

Lemma emailChanged_false st :
  emailChanged st = false <->
  lastEmailSentTo (localStorage st) = Some (recipientEmail st).
Proof.
  unfold emailChanged. rewrite negb_false_iff, bool_decide_eq_true. done.
Qed.

Lemma In_paymentsToSend now st p :
  In p (paymentsToSend now st) <->
  In p (actionablePayments now (payments st)) /\
  RecurringPayment.id p ∉ sentPaymentIds now st.
Proof.
  unfold paymentsToSend. rewrite filter_In, negb_true_iff, bool_decide_eq_false.
  done.
Qed.

End Dedup.

(** ** A dispatch run *)

Section Run.
Context {tz : TimeZone}.
Import Hooks.

(** A run that finds something to send goes through the send loop. *)
Lemma checkAndSendEmails_runs env now st :
  isSendingRef st = false ->
  paymentsToSend now st <> [] ->
  checkAndSendEmails env now st =
  (resolve (toDateString now) st (runLoop env now st), effects (runLoop env now st)).
Proof.
  intros Hguard Hsome. unfold checkAndSendEmails. rewrite Hguard.
  assert (Hact : actionablePayments now (payments st) <> []).
  { intros Hnil. apply Hsome. unfold paymentsToSend. rewrite Hnil. reflexivity. }
  destruct (actionablePayments now (payments st)) eqn:Ea; [done|].
  destruct (paymentsToSend now st) eqn:Es; [done|]. reflexivity.
Qed.

Lemma outcomes_some env recipient todo : forall k,
  todo <> [] ->
  ~ In MissingConfig (outcomes env recipient k todo) ->
  In Success (outcomes env recipient k todo) \/
  In Error (outcomes env recipient k todo).
Proof.
  destruct todo as [|p todo]; intros k Hne Hfree; [done|].
  cbn [outcomes In] in *.
  destruct (notify env k p recipient); [auto|auto|]. exfalso. auto.
Qed.

(** The loop variables after a run that meets no [missing_config]. *)
Lemma runLoop_complete env now st :
  let outs := outcomes env (recipientEmail st) 0 (paymentsToSend now st) in
  let l := runLoop env now st in
  ~ In MissingConfig outs ->
  missingConfig l = false /\
  (hasErrors l = true <-> In Error outs) /\
  ((0 < sentCount l)%nat <-> In Success outs) /\
  (exists new, logs l = new ++ emailLogs st /\ loggedFor new (paymentsToSend now st)) /\
  effects l =
    flat_map (sendThenPause (recipientEmail st)
                (1 <? length (paymentsToSend now st))%nat)
      (paymentsToSend now st).
Proof.
  intros outs l Hfree. subst outs l. unfold runLoop.
  generalize dependent (paymentsToSend now st). intros toSend Hfree.
  destruct (sendLoop_complete env (recipientEmail st) (length toSend) toSend
              0%nat (loopStart now st) Hfree) as (Hm & He & Hs & Hl & Hf).
  cbn [loopStart hasErrors missingConfig sentCount logs effects] in *.
  split; [exact Hm|]. split; [|split; [|split]].
  - rewrite He. intuition discriminate.
  - rewrite Hs. intuition lia.
  - exact Hl.
  - rewrite Hf. reflexivity.
Qed.

(** The loop variables after a run that [missing_config] cuts short at
    [x]. *)
Lemma runLoop_aborted env now st pre x post :
  paymentsToSend now st = pre ++ x :: post ->
  ~ In MissingConfig (outcomes env (recipientEmail st) 0 pre) ->
  notify env (length pre) x (recipientEmail st) = MissingConfig ->
  let l := runLoop env now st in
  missingConfig l = true /\
  (exists new, logs l = new ++ emailLogs st /\ loggedFor new pre) /\
  effects l =
    flat_map (sendThenPause (recipientEmail st)
                (1 <? length (paymentsToSend now st))%nat) pre ++
    [Send x (recipientEmail st)].
Proof.
  intros Hsplit Hfree Hx l. subst l. unfold runLoop. rewrite Hsplit.
  generalize (length (pre ++ x :: post)). intros len.
  rewrite sendLoop_app by exact Hfree. cbn [Nat.add].
  rewrite sendLoop_abort by exact Hx.
  destruct (sendLoop_complete env (recipientEmail st) len pre
              0%nat (loopStart now st) Hfree) as (_ & _ & _ & Hl & Hf).
  cbn [loopStart hasErrors missingConfig sentCount logs effects] in *.
  split; [reflexivity|]. split; [exact Hl|]. rewrite Hf. reflexivity.
Qed.

(** C2. In a run whose send loop ends without [missing_config]: the status
    is [sent] exactly when some send succeeded and none failed, and then
    [lastEmailSentDate] is today's date string and [lastEmailSentTo] the
    current recipient; the status is [error] exactly when some send failed,
    and whenever the status is not [sent] the two keys are left as they
    were. *)
Theorem run_status_resolution env now st :
  isSendingRef st = false ->
  paymentsToSend now st <> [] ->
  let outs := outcomes env (recipientEmail st) 0 (paymentsToSend now st) in
  ~ In MissingConfig outs ->
  let st' := fst (checkAndSendEmails env now st) in
  (emailStatus st' = sent <-> In Success outs /\ ~ In Error outs) /\
  (emailStatus st' = sent ->
   localStorage st' =
   {| lastEmailSentDate := Some (toDateString now);
      lastEmailSentTo := Some (recipientEmail st) |}) /\
  (emailStatus st' = error <-> In Error outs) /\
  (emailStatus st' <> sent -> localStorage st' = localStorage st).
Proof.
  intros Hguard Hsome outs Hfree st'. subst st'.
  rewrite checkAndSendEmails_runs by done. cbn [fst].
  destruct (runLoop_complete env now st Hfree) as (Hm & He & Hs & _ & _).
  destruct (outcomes_some env (recipientEmail st) _ 0%nat Hsome Hfree) as [Hany|Hany].
  all: fold outs in He, Hs, Hany.
  all: generalize dependent outs; intros outs _ He Hs Hany.
  all: generalize (toDateString now); intros todayStr.
  all: unfold resolve; rewrite Hm.
  all: destruct (hasErrors (runLoop env now st));
    destruct (Nat.ltb_spec 0 (sentCount (runLoop env now st)));
    cbn [andb negb emailStatus localStorage].
  all: repeat split; try done; try tauto; try (intros; intuition (lia || done)).
Qed.

(** What a run cut short by [missing_config] did to the outside world. *)
Lemma missing_config_aborts_effects env now st pre x post :
  isSendingRef st = false ->
  paymentsToSend now st = pre ++ x :: post ->
  ~ In MissingConfig (outcomes env (recipientEmail st) 0 pre) ->
  notify env (length pre) x (recipientEmail st) = MissingConfig ->
  let r := recipientEmail st in
  let done := snd (checkAndSendEmails env now st) in
  ((1 < length (paymentsToSend now st))%nat ->
   done = flat_map (fun p => [Send p r; Sleep interSendDelay]) pre ++ [Send x r]) /\
  (length (paymentsToSend now st) = 1%nat -> done = [Send x r]).
Proof.
  intros Hguard Hsplit Hfree Hx r done'. subst r done'.
  rewrite checkAndSendEmails_runs by (rewrite ?Hsplit; auto using app_cons_not_nil).
  cbn [snd].
  destruct (runLoop_aborted env now st pre x post Hsplit Hfree Hx) as (_ & _ & ->).
  split; intros Hlen.
  - apply Nat.ltb_lt in Hlen. rewrite Hlen. reflexivity.
  - rewrite Hsplit, length_app in Hlen. cbn [length] in Hlen.
    destruct pre; [reflexivity|]. cbn [length] in Hlen. lia.
Qed.

(** C4. When the notifier answers [missing_config] for the item [x] of
    [paymentsToSend], the run stops there: the status is [missing_config],
    the two keys of [localStorage] and [lastSentTo] are untouched, the new
    log entries are exactly those of the items before [x], and the notifier
    is called for those items and [x] only. *)
Theorem missing_config_aborts env now st pre x post :
  isSendingRef st = false ->
  paymentsToSend now st = pre ++ x :: post ->
  ~ In MissingConfig (outcomes env (recipientEmail st) 0 pre) ->
  notify env (length pre) x (recipientEmail st) = MissingConfig ->
  let st' := fst (checkAndSendEmails env now st) in
  let done := snd (checkAndSendEmails env now st) in
  emailStatus st' = missing_config /\
  localStorage st' = localStorage st /\
  lastSentTo st' = lastSentTo st /\
  (exists new, emailLogs st' = new ++ emailLogs st /\ loggedFor new pre) /\
  done =
    flat_map (sendThenPause (recipientEmail st)
                (1 <? length (paymentsToSend now st))%nat) pre ++
    [Send x (recipientEmail st)].
Proof.
  intros Hguard Hsplit Hfree Hx st' done'. subst st' done'.
  rewrite checkAndSendEmails_runs by (rewrite ?Hsplit; auto using app_cons_not_nil).
  cbn [fst snd].
  destruct (runLoop_aborted env now st pre x post Hsplit Hfree Hx) as (Hm & Hl & Hf).
  unfold resolve. rewrite Hm. cbn [emailStatus localStorage lastSentTo emailLogs].
  auto.
Qed.

(** C5 (amended). The 2.5 s pause follows every send that is logged, the
    last one included, when [paymentsToSend] holds more than one item, and
    no send when it holds one item; the send that reports [missing_config]
    is followed by nothing. *)
Theorem pause_follows_every_logged_send env now st :
  isSendingRef st = false ->
  let r := recipientEmail st in
  let toSend := paymentsToSend now st in
  let done := snd (checkAndSendEmails env now st) in
  (toSend <> [] -> ~ In MissingConfig (outcomes env r 0 toSend) ->
   ((1 < length toSend)%nat ->
    done = flat_map (fun p => [Send p r; Sleep interSendDelay]) toSend) /\
   (length toSend = 1%nat -> done = map (fun p => Send p r) toSend)) /\
  (forall pre x post,
     toSend = pre ++ x :: post ->
     ~ In MissingConfig (outcomes env r 0 pre) ->
     notify env (length pre) x r = MissingConfig ->
     ((1 < length toSend)%nat ->
      done = flat_map (fun p => [Send p r; Sleep interSendDelay]) pre ++ [Send x r]) /\
     (length toSend = 1%nat -> done = [Send x r])).
Proof.
  intros Hguard r toSend done'. subst r toSend done'. split.
  - intros Hsome Hfree. rewrite checkAndSendEmails_runs by done. cbn [snd].
    destruct (runLoop_complete env now st Hfree) as (_ & _ & _ & _ & ->).
    split; intros Hlen.
    + apply Nat.ltb_lt in Hlen. rewrite Hlen. reflexivity.
    + rewrite Hlen. cbn [Nat.ltb Nat.leb].
      generalize (paymentsToSend now st). intros l.
      induction l as [|p l IH]; [reflexivity|]. cbn. by rewrite IH.
  - intros pre x post Hsplit Hfree Hx.
    destruct (missing_config_aborts_effects env now st pre x post
                Hguard Hsplit Hfree Hx) as [Hmany Hone].
    split; assumption.
Qed.

End Run.

(** ** Deduplication within a day *)

Section DedupClaims.
Context {tz : TimeZone}.
Import Hooks.

Lemma sendLoop_sends env recipient len todo : forall k s q r,
  In (Send q r) (effects (sendLoop env recipient len k todo s)) ->
  In (Send q r) (effects s) \/ In q todo.
Proof.
  induction todo as [|p todo IH]; intros k s q r Hin; cbn [sendLoop] in Hin.
  - by left.
  - cbn [In].
    destruct (notify env k p recipient);
      [apply IH in Hin; cbn [effects] in Hin; destruct Hin as [Hin|Hin]; [|tauto];
       destruct (1 <? len)%nat..
      |cbn [effects] in Hin];
      rewrite ?in_app_iff in Hin; cbn [In] in Hin;
      intuition (discriminate || (left + (right; left)); congruence).
Qed.

(** The notifier is called for items of [paymentsToSend] only. *)
Lemma checkAndSendEmails_sends env now st q r :
  In (Send q r) (snd (checkAndSendEmails env now st)) ->
  In q (paymentsToSend now st).
Proof.
  unfold checkAndSendEmails.
  repeat match goal with
         | |- context [if ?b then _ else _] => destruct b; cbn [snd In]; try tauto
         end.
  unfold runLoop. intros [[]|Hin]%sendLoop_sends. exact Hin.
Qed.

(** Two time values print the same date string exactly when they fall on
    the same local day. *)
Lemma toDateString_same_day t1 t2 :
  toDateString t1 = toDateString t2 <-> Day (LocalTime t1) = Day (LocalTime t2).
Proof.
  unfold toDateString. cbv zeta.
  generalize (LocalTime t1), (LocalTime t2). clear t1 t2. intros t1 t2. split.
  - intros [= _ Hm Hd Hy].
    destruct (civil_fields t1) as (_ & _ & ->), (civil_fields t2) as (_ & _ & ->).
    rewrite Hm, Hd, Hy. reflexivity.
  - intros Hday. pose proof (civil_fields t1) as Hc. rewrite Hday in Hc.
    apply civil_unique in Hc as (Hy & Hm & Hd).
    unfold WeekDay. rewrite Hday, Hy, Hm, Hd. reflexivity.
Qed.

(** The loop only adds to what was done before it. *)
Lemma sendLoop_effects_grow env recipient len todo : forall k s,
  exists more, effects (sendLoop env recipient len k todo s) = effects s ++ more.
Proof.
  induction todo as [|p todo IH]; intros k s; cbn [sendLoop].
  - exists []. by rewrite app_nil_r.
  - destruct (notify env k p recipient);
      [match goal with
       | |- context [sendLoop env recipient len (S k) todo ?s1] =>
           destruct (IH (S k) s1) as (more & ->)
       end; cbn [effects]; destruct (1 <? len)%nat;
       rewrite <- ?app_assoc; by eexists..
      |cbn [effects]; by eexists].
Qed.

(** The notifier is called for the item the loop starts with. *)
Lemma sendLoop_calls_head env recipient len k p rest s :
  In (Send p recipient) (effects (sendLoop env recipient len k (p :: rest) s)).
Proof.
  cbn [sendLoop].
  destruct (notify env k p recipient);
    [match goal with
     | |- context [sendLoop env recipient len (S k) rest ?s1] =>
         destruct (sendLoop_effects_grow env recipient len rest (S k) s1) as (more & ->)
     end; cbn [effects]; destruct (1 <? len)%nat;
     rewrite !in_app_iff; cbn [In]; tauto..
    |cbn [effects]; rewrite in_app_iff; cbn [In]; tauto].
Qed.

(** With the guard down, the notifier is called for every item of
    [paymentsToSend] that no [missing_config] of an earlier item cuts
    off. *)
Lemma checkAndSendEmails_calls_reached env now st pre p post :
  isSendingRef st = false ->
  paymentsToSend now st = pre ++ p :: post ->
  ~ In MissingConfig (outcomes env (recipientEmail st) 0 pre) ->
  In (Send p (recipientEmail st)) (snd (checkAndSendEmails env now st)).
Proof.
  intros Hguard Hsplit Hfree.
  rewrite checkAndSendEmails_runs by (rewrite ?Hsplit; auto using app_cons_not_nil).
  cbn [snd]. unfold runLoop. rewrite Hsplit.
  rewrite sendLoop_app by exact Hfree. apply sendLoop_calls_head.
Qed.

(** C3 (amended). While [lastEmailSentTo] is the current recipient, an
    obligation (ids are truthy strings) with a success entry of today's date
    under its id is not in [paymentsToSend], and the run does not call the
    notifier for it; when [lastEmailSentTo] is not the current recipient the
    set of served ids is empty, [paymentsToSend] is the whole actionable
    list, and the run calls the notifier for each of its payments unless the
    guard shuts the run out or an earlier payment reports
    [missing_config]. *)
Theorem dedup_within_day now st :
  (forall p log,
     lastEmailSentTo (localStorage st) = Some (recipientEmail st) ->
     In log (emailLogs st) ->
     EmailLog.status log = LogSuccess ->
     toDateString (EmailLog.sentAt log) = toDateString now ->
     EmailLog.paymentId log = Some (RecurringPayment.id p) ->
     truthy (RecurringPayment.id p) = true ->
     ~ In p (paymentsToSend now st) /\
     forall env r, ~ In (Send p r) (snd (checkAndSendEmails env now st))) /\
  (lastEmailSentTo (localStorage st) <> Some (recipientEmail st) ->
   sentPaymentIds now st = ∅ /\
   paymentsToSend now st = actionablePayments now (payments st) /\
   forall env pre p post,
     isSendingRef st = false ->
     actionablePayments now (payments st) = pre ++ p :: post ->
     ~ In MissingConfig (outcomes env (recipientEmail st) 0 pre) ->
     In (Send p (recipientEmail st)) (snd (checkAndSendEmails env now st))).
Proof.
  split.
  - intros p log Hsame Hin Hok Hday Hid Hne.
    assert (Hout : ~ In p (paymentsToSend now st)).
    { rewrite In_paymentsToSend. intros [_ Hnot]. apply Hnot.
      apply elem_of_sentPaymentIds. split; [by apply emailChanged_false|].
      exists log. unfold servedBy. auto. }
    split; [exact Hout|]. intros env r Hsend. apply Hout.
    exact (checkAndSendEmails_sends env now st p r Hsend).
  - intros Hdiff.
    assert (Hchanged : emailChanged st = true).
    { destruct (emailChanged st) eqn:E; [reflexivity|].
      apply emailChanged_false in E. done. }
    assert (Hempty : sentPaymentIds now st = ∅)
      by (unfold sentPaymentIds; rewrite Hchanged; reflexivity).
    assert (Hall : paymentsToSend now st = actionablePayments now (payments st)).
    { unfold paymentsToSend. rewrite Hempty.
      generalize (actionablePayments now (payments st)). intros l.
      induction l as [|p l IH]; [reflexivity|]. cbn [List.filter].
      rewrite bool_decide_eq_false_2 by apply not_elem_of_empty.
      cbn [negb]. by rewrite IH. }
    split; [exact Hempty|]. split; [exact Hall|].
    intros env pre p post Hguard Hsplit Hfree.
    apply (checkAndSendEmails_calls_reached env now st pre p post Hguard);
      [by rewrite Hall|exact Hfree].
Qed.

(** C10 (amended). Log entries without a [paymentId] add nothing to the set
    of served ids: the set is the one the entries that have an id give, and
    an actionable obligation with no success entry of today under its own
    id is in [paymentsToSend]; the run calls the notifier for it unless the
    guard shuts the run out or an earlier payment reports
    [missing_config]. *)
Theorem unidentified_logs_ignored now st :
  sentPaymentIds now st = sentPaymentIds now (withLogs st (identified (emailLogs st))) /\
  (forall p,
     In p (actionablePayments now (payments st)) ->
     (forall log,
        In log (emailLogs st) ->
        EmailLog.status log = LogSuccess ->
        toDateString (EmailLog.sentAt log) = toDateString now ->
        EmailLog.paymentId log <> Some (RecurringPayment.id p)) ->
     In p (paymentsToSend now st) /\
     forall env pre post,
       isSendingRef st = false ->
       paymentsToSend now st = pre ++ p :: post ->
       ~ In MissingConfig (outcomes env (recipientEmail st) 0 pre) ->
       In (Send p (recipientEmail st)) (snd (checkAndSendEmails env now st))).
Proof.
  split.
  - apply set_eq. intros x. rewrite !elem_of_sentPaymentIds.
    change (emailChanged (withLogs st _)) with (emailChanged st).
    cbn [withLogs emailLogs]. unfold identified.
    split; intros (Hc & log & Hin & Hs); (split; [exact Hc|]); exists log;
      (split; [|exact Hs]).
    + apply filter_In. split; [exact Hin|].
      destruct Hs as (_ & _ & -> & _). by apply bool_decide_eq_true.
    + by apply filter_In in Hin as [Hin _].
  - intros p Hact Hnone. split.
    + apply In_paymentsToSend. split; [exact Hact|].
      rewrite elem_of_sentPaymentIds. intros (_ & log & Hin & Hd & Hs & Hid & _).
      exact (Hnone log Hin Hs Hd Hid).
    + intros env pre post Hguard Hsplit Hfree.
      exact (checkAndSendEmails_calls_reached env now st pre p post Hguard Hsplit Hfree).
Qed.

End DedupClaims.

(** ** The 06:00 scheduler *)

Section Scheduler.
Context {tz : TimeZone}.
Import Hooks.

Lemma setHours_local t h m s ms :
  LocalTime (setHours t h m s ms) = MakeDate (Day (LocalTime t)) (MakeTime h m s ms).
Proof. unfold setHours. cbv zeta. apply LocalTime_UTC. Qed.

Lemma sixAm_in_day : 0 <= MakeTime 6 0 0 0 < msPerDay.
Proof. done. Qed.

(** 06:00 of the day after [now], from [targetTime] by [setDate]. *)
Lemma tomorrowSixAm_local now :
  let targetTime := setHours now 6 0 0 0 in
  LocalTime (setDate targetTime (getDate targetTime + 1)) =
  MakeDate (Day (LocalTime now) + 1) (MakeTime 6 0 0 0).
Proof.
  cbv zeta. rewrite setDate_succ_local, setHours_local.
  rewrite Day_MakeDate, TimeWithinDay_MakeDate by apply sixAm_in_day.
  reflexivity.
Qed.

(** C9. When the recorded last-dispatch date is today's, a timer is set
    that fires at 06:00 local time of the next day; otherwise the check is
    called at once if it is 06:00 or later, and else a timer is set that
    fires at 06:00 today. *)
Theorem schedule_six_am now storage :
  let today := Day (LocalTime now) in
  let sixAm := MakeTime 6 0 0 0 in
  (lastEmailSentDate storage = Some (toDateString now) ->
   exists ms, schedule now storage = SetTimeout ms /\ 0 < ms /\
              LocalTime (now + ms) = MakeDate (today + 1) sixAm) /\
  (lastEmailSentDate storage <> Some (toDateString now) ->
   (MakeDate today sixAm <= LocalTime now -> schedule now storage = CallNow) /\
   (LocalTime now < MakeDate today sixAm ->
    exists ms, schedule now storage = SetTimeout ms /\ 0 < ms /\
               LocalTime (now + ms) = MakeDate today sixAm)).
Proof.
  cbv zeta. pose proof (tomorrowSixAm_local now) as Htomorrow.
  pose proof (setHours_local now 6 0 0 0) as Htarget.
  pose proof (Day_TimeWithinDay (LocalTime now)) as Hnow.
  pose proof (TimeWithinDay_bounds (LocalTime now)) as Htod.
  cbv zeta in Htomorrow. unfold schedule. cbv zeta.
  revert Htomorrow Htarget.
  generalize (setDate (setHours now 6 0 0 0) (getDate (setHours now 6 0 0 0) + 1)).
  generalize (setHours now 6 0 0 0). generalize (toDateString now).
  revert Hnow Htod. generalize (TimeWithinDay (LocalTime now)), (Day (LocalTime now)).
  intros tod today Hnow Htod todayStr targetTime tomorrowSixAm Htomorrow Htarget.
  unfold LocalTime, MakeDate, MakeTime, msPerDay, msPerHour, msPerMinute,
    msPerSecond in *.
  split.
  - intros Hsent. rewrite bool_decide_eq_true_2 by exact Hsent.
    eexists. split; [reflexivity|]. lia.
  - intros Hnot. rewrite bool_decide_eq_false_2 by exact Hnot. split.
    + intros Hlate. destruct (Z.leb_spec targetTime now); [reflexivity|lia].
    + intros Hearly. destruct (Z.leb_spec targetTime now); [lia|].
      eexists. split; [reflexivity|]. lia.
Qed.

(** The timer of the first case fires on the calendar's next day. *)
Lemma tomorrowSixAm_date now ms :
  LocalTime (now + ms) = MakeDate (Day (LocalTime now) + 1) (MakeTime 6 0 0 0) ->
  (getFullYear (now + ms), getMonth (now + ms), getDate (now + ms)) =
  spec_tomorrow (getFullYear now) (getMonth now) (getDate now).
Proof.
  intros Hfire. pose proof (civil_succ _ _ _ _ (getters_civil now)) as Hc.
  destruct (spec_tomorrow _ _ _) as [[y' m'] d'].
  rewrite <- (Day_MakeDate _ _ sixAm_in_day), <- Hfire in Hc.
  apply civil_unique in Hc as (Hy & Hm & Hd).
  rewrite <- Hy, <- Hm, <- Hd. reflexivity.
Qed.

End Scheduler.

(** ** The theorems at work on sample runs *)

(** C5, as stated, fails on 29 April 2025: rent and Netflix are both to be
    sent, both sends succeed, and the run pauses after the first send, when
    one item remains, and after the last one, when none does. *)
Lemma pause_after_final_send :
  @Hooks.paymentsToSend IST april29 (hookState [rent; netflix] [] nothingStored) =
    [rent; netflix] /\
  snd (@Hooks.checkAndSendEmails IST (delivering (fun _ => true)) april29
         (hookState [rent; netflix] [] nothingStored)) =
    [Send rent recipient; Sleep 2500; Send netflix recipient; Sleep 2500].
Proof. split; vm_compute; reflexivity. Qed.

Lemma run_status_resolution_witness :
  let st := hookState [rent; netflix; gym] [] nothingStored in
  let st' := fst (@Hooks.checkAndSendEmails IST (delivering (fun k => (k =? 1)%nat)) april29 st) in
  emailStatus st' = error /\ localStorage st' = nothingStored.
Proof.
  cbv zeta.
  destruct (@run_status_resolution IST (delivering (fun k => (k =? 1)%nat)) april29
              (hookState [rent; netflix; gym] [] nothingStored))
    as (_ & _ & Herror & Hkept).
  - reflexivity.
  - vm_compute. discriminate.
  - vm_compute. intuition discriminate.
  - split.
    + apply Herror. vm_compute. auto.
    + apply Hkept. vm_compute. discriminate.
Defined.

Lemma missing_config_aborts_witness :
  let st := hookState [rent; netflix; gym] [] nothingStored in
  let st' := fst (@Hooks.checkAndSendEmails IST unconfigured april29 st) in
  emailStatus st' = missing_config /\ localStorage st' = nothingStored /\
  emailLogs st' = [] /\
  snd (@Hooks.checkAndSendEmails IST unconfigured april29 st) = [Send rent recipient].
Proof.
  cbv zeta.
  destruct (@missing_config_aborts IST unconfigured april29
              (hookState [rent; netflix; gym] [] nothingStored) [] rent [netflix; gym])
    as (Hstatus & Hkept & _ & (new & Hlogs & Hnew) & Hdone).
  - reflexivity.
  - vm_compute. reflexivity.
  - intros [].
  - vm_compute. reflexivity.
  - destruct new; [|discriminate Hnew]. auto.
Defined.

Lemma pause_follows_every_logged_send_witness :
  snd (@Hooks.checkAndSendEmails IST (delivering (fun _ => true)) april29
         (hookState [rent; netflix] [] nothingStored)) =
  flat_map (fun p => [Send p recipient; Sleep Hooks.interSendDelay]) [rent; netflix].
Proof.
  destruct (@pause_follows_every_logged_send IST (delivering (fun _ => true)) april29
              (hookState [rent; netflix] [] nothingStored) eq_refl)
    as [Hcomplete _].
  destruct Hcomplete as [Hmany _].
  - vm_compute. discriminate.
  - vm_compute. intuition discriminate.
  - apply Hmany. vm_compute. lia.
Defined.

Lemma dedup_within_day_witness :
  (let st := hookState [rent; netflix] [rentLog april29] sentOnApril29 in
   ~ In rent (@Hooks.paymentsToSend IST (april29 + 3600000) st) /\
   forall env r,
     ~ In (Send rent r) (snd (@Hooks.checkAndSendEmails IST env (april29 + 3600000) st))) /\
  (let st := hookState [rent; netflix] [rentLog april29] sentToOther in
   In (Send rent recipient)
     (snd (@Hooks.checkAndSendEmails IST allDelivered (april29 + 3600000) st))).
Proof.
  cbv zeta. split.
  - apply (proj1 (@dedup_within_day IST (april29 + 3600000)
                    (hookState [rent; netflix] [rentLog april29] sentOnApril29))
             rent (rentLog april29)).
    + reflexivity.
    + left. reflexivity.
    + reflexivity.
    + vm_compute. reflexivity.
    + reflexivity.
    + reflexivity.
  - destruct (proj2 (@dedup_within_day IST (april29 + 3600000)
                       (hookState [rent; netflix] [rentLog april29] sentToOther)))
      as (_ & _ & Hsend).
    + discriminate.
    + apply (Hsend allDelivered [] rent [netflix]).
      * reflexivity.
      * vm_compute. reflexivity.
      * intros [].
Defined.

Lemma unidentified_logs_ignored_witness :
  let st := hookState [rent; netflix] [anonymousLog april29] sentOnApril29 in
  In rent (@Hooks.paymentsToSend IST (april29 + 3600000) st) /\
  In (Send rent recipient)
    (snd (@Hooks.checkAndSendEmails IST allDelivered (april29 + 3600000) st)).
Proof.
  cbv zeta.
  destruct (proj2 (@unidentified_logs_ignored IST (april29 + 3600000)
                     (hookState [rent; netflix] [anonymousLog april29] sentOnApril29))
              rent) as [Hin Hsend].
  - vm_compute. left. reflexivity.
  - intros log [<-|[]] _ _. discriminate.
  - split; [exact Hin|].
    apply (Hsend allDelivered [] [netflix]).
    + reflexivity.
    + vm_compute. reflexivity.
    + intros [].
Defined.

(** C3, as stated, fails on 29 April 2025 when the credentials are
    placeholders: the stored recipient is another address, rent and Netflix
    are both actionable (the rent with a success entry of today), and the
    run stops at the rent; the notifier is never called for Netflix and
    nothing is logged. *)
Lemma resend_cut_short_by_missing_config :
  let st := hookState [rent; netflix] [rentLog april29] sentToOther in
  lastEmailSentTo (localStorage st) <> Some (recipientEmail st) /\
  @Hooks.actionablePayments IST april29Later (payments st) = [rent; netflix] /\
  @Hooks.checkAndSendEmails IST unconfigured april29Later st =
    ({| payments := [rent; netflix]; emailLogs := [rentLog april29];
        recipientEmail := recipient; lastSentTo := EmptyString;
        emailStatus := missing_config; isSendingRef := false;
        localStorage := sentToOther |},
     [Send rent recipient]) /\
  ~ In (Send netflix recipient)
      (snd (@Hooks.checkAndSendEmails IST unconfigured april29Later st)).
Proof.
  cbv zeta. split; [discriminate|]. split; [vm_compute; reflexivity|].
  split; [vm_compute; reflexivity|].
  vm_compute. intros [H|[]]. discriminate H.
Qed.

(** C10, as stated, fails in the same way: the recipient is unchanged, the
    only log entry names no payment, Netflix is actionable and has no
    success entry, and with placeholder credentials the run stops at the
    rent without calling the notifier for Netflix. *)
Lemma unserved_cut_short_by_missing_config :
  let st := hookState [rent; netflix] [anonymousLog april29] sentOnApril29 in
  lastEmailSentTo (localStorage st) = Some (recipientEmail st) /\
  In netflix (@Hooks.actionablePayments IST april29Later (payments st)) /\
  (forall log, In log (emailLogs st) ->
     EmailLog.paymentId log <> Some (RecurringPayment.id netflix)) /\
  snd (@Hooks.checkAndSendEmails IST unconfigured april29Later st) =
    [Send rent recipient] /\
  ~ In (Send netflix recipient)
      (snd (@Hooks.checkAndSendEmails IST unconfigured april29Later st)).
Proof.
  cbv zeta. split; [reflexivity|].
  split; [vm_compute; right; left; reflexivity|].
  split; [intros log [<-|[]]; discriminate|].
  split; [vm_compute; reflexivity|].
  vm_compute. intros [H|[]]. discriminate H.
Qed.

Lemma schedule_six_am_witness :
  @Hooks.schedule IST (april29 + 3600000) nothingStored = CallNow /\
  exists ms, @Hooks.schedule IST (april29 + 3600000) sentOnApril29 = SetTimeout ms /\
             0 < ms /\
             @LocalTime IST (april29 + 3600000 + ms) =
             MakeDate (Day (@LocalTime IST (april29 + 3600000)) + 1) (MakeTime 6 0 0 0).
Proof.
  split.
  - apply (proj2 (@schedule_six_am IST (april29 + 3600000) nothingStored)).
    + discriminate.
    + vm_compute. discriminate.
  - apply (proj1 (@schedule_six_am IST (april29 + 3600000) sentOnApril29)).
    vm_compute. reflexivity.
Defined.

(** ** The payment list *)

Section PaymentStoreFacts.
Context {tz : TimeZone}.
Import Hooks PaymentStore.

Lemma filter_all_true {A} (f : A -> bool) (l : list A) :
  (forall x, In x l -> f x = true) -> List.filter f l = l.
Proof.
  induction l as [|x l IH]; intros Hall; [reflexivity|]. cbn [List.filter].
  rewrite (Hall x) by (by left). f_equal. apply IH. intros y Hy. apply Hall. by right.
Qed.

Lemma filter_all_false {A} (f : A -> bool) (l : list A) :
  (forall x, In x l -> f x = false) -> List.filter f l = [].
Proof.
  induction l as [|x l IH]; intros Hall; [reflexivity|]. cbn [List.filter].
  rewrite (Hall x) by (by left). apply IH. intros y Hy. apply Hall. by right.
Qed.

(** X1. Deleting by id undoes the addition of a payment whose id is new to the
    list; with an id already in use it also takes the older payments of
    that id away. *)
Theorem deletePayment_addPayment p ps :
  deletePayment (RecurringPayment.id p) (addPayment p ps) =
    deletePayment (RecurringPayment.id p) ps /\
  ((forall q, In q ps -> RecurringPayment.id q <> RecurringPayment.id p) ->
   deletePayment (RecurringPayment.id p) (addPayment p ps) = ps).
Proof.
  assert (Hdel : deletePayment (RecurringPayment.id p) (addPayment p ps) =
                 deletePayment (RecurringPayment.id p) ps).
  { unfold deletePayment, addPayment. rewrite List.filter_app. cbn [List.filter].
    rewrite bool_decide_eq_true_2 by reflexivity. apply app_nil_r. }
  split; [exact Hdel|]. intros Hnew. rewrite Hdel. unfold deletePayment.
  apply filter_all_true. intros q Hq.
  rewrite bool_decide_eq_false_2 by (by apply Hnew). reflexivity.
Qed.

Lemma spread_startEdit p :
  spread p (PaymentsPage.startEdit p) = p.
Proof. destruct p as [i n a d [paid|]]; reflexivity. Qed.

(** X2. Opening the edit form on a payment and saving it untouched leaves the
    list as it was, when the ids of the list are pairwise distinct. *)
Theorem editPayment_startEdit p ps :
  In p ps ->
  NoDup (map RecurringPayment.id ps) ->
  editPayment (RecurringPayment.id p) (PaymentsPage.startEdit p) ps = ps.
Proof.
  intros Hin Hnodup. unfold editPayment.
  rewrite <- (map_id ps) at 2. apply map_ext_in. intros q Hq.
  destruct (bool_decide_reflect (RecurringPayment.id q = RecurringPayment.id p))
    as [Heq|Hne]; [|reflexivity].
  assert (q = p) as ->; [|apply spread_startEdit].
  apply list_elem_of_In in Hin, Hq.
  apply list_elem_of_lookup in Hin as [i Hi], Hq as [j Hj].
  assert (i = j) as ->; [|congruence].
  eapply (NoDup_lookup (map RecurringPayment.id ps)); [exact Hnodup| |].
  - rewrite list_lookup_fmap, Hi. reflexivity.
  - rewrite list_lookup_fmap, Hj. cbn. by rewrite Heq.
Qed.

Lemma paidInMonthOf_isPaidThisMonth now p :
  isPaidThisMonth (days now) p = paidInMonthOf now p.
Proof. reflexivity. Qed.

Lemma paidInMonthOf_now now p :
  paidInMonthOf now (withLastPaidDate p (Some now)) = true.
Proof.
  unfold paidInMonthOf. cbn [withLastPaidDate RecurringPayment.lastPaidDate].
  by rewrite !Z.eqb_refl.
Qed.

(** X3. [togglePaymentStatus] flips, at the clock of the click, the paid-this-
    month status of every payment with the id and touches nothing else:
    the other payments, the order and all other fields stay. *)
Theorem togglePaymentStatus_flips now id ps :
  Forall2
    (fun p p' =>
       (RecurringPayment.id p <> id -> p' = p) /\
       (RecurringPayment.id p = id ->
        paidInMonthOf now p' = negb (paidInMonthOf now p) /\
        exists paid, p' = withLastPaidDate p paid))
    ps (togglePaymentStatus now id ps).
Proof.
  unfold togglePaymentStatus. induction ps as [|p ps IH]; [constructor|].
  cbn [map]. constructor; [|exact IH].
  destruct (bool_decide_reflect (RecurringPayment.id p = id)) as [Heq|Hne];
    cbn [negb]; [|split; [reflexivity|done]].
  split; [done|]. intros _.
  destruct (paidInMonthOf now p) eqn:Hpaid; cbn [negb].
  - split; [reflexivity|]. by eexists.
  - split; [apply paidInMonthOf_now|]. by eexists.
Qed.

End PaymentStoreFacts.

(** ** What a dispatch run keeps and what it never does *)

Section RunInvariants.
Context {tz : TimeZone}.
Import Hooks PaymentStore.

Lemma sendLoop_sends_to env recipient len todo : forall k s q r,
  In (Send q r) (effects (sendLoop env recipient len k todo s)) ->
  In (Send q r) (effects s) \/ (In q todo /\ r = recipient).
Proof.
  induction todo as [|p todo IH]; intros k s q r Hin; cbn [sendLoop] in Hin.
  - by left.
  - cbn [In].
    destruct (notify env k p recipient);
      [apply IH in Hin as [Hin|[Hin ->]]; [|tauto]; cbn [effects] in Hin;
       destruct (1 <? len)%nat..
      |cbn [effects] in Hin];
      rewrite ?in_app_iff in Hin; cbn [In] in Hin;
      repeat (destruct Hin as [Hin|Hin]);
      try (injection Hin as <- <-); try discriminate Hin; tauto.
Qed.

(** The loop only ever puts entries in front of the log, at most one for
    each item. *)
Lemma sendLoop_log_grows env recipient len todo : forall k s,
  exists new,
    logs (sendLoop env recipient len k todo s) = new ++ logs s /\
    (length new <= length todo)%nat.
Proof.
  induction todo as [|p todo IH]; intros k s; cbn [sendLoop].
  - exists []. split; [reflexivity|]. cbn. lia.
  - destruct (notify env k p recipient);
      [match goal with
       | |- context [sendLoop env recipient len (S k) todo ?s1] =>
           destruct (IH (S k) s1) as (new & Hl & Hn)
       end; cbn [logs] in Hl; eexists (new ++ [_]); split;
       [rewrite Hl, <- app_assoc; reflexivity|rewrite length_app; cbn; lia]..
      |exists []; split; [reflexivity|cbn; lia]].
Qed.

(** The payments a run may mail are the unsettled actionable ones of the
    list. *)
Lemma In_paymentsToSend_actionable now st p :
  In p (paymentsToSend now st) ->
  In p (payments st) /\ actionable (days now) p = true /\
  isPaidThisMonth (days now) p = false.
Proof.
  intros [Hact _]%In_paymentsToSend.
  apply In_duePayments in Hact as [Hin Hact]. split; [exact Hin|].
  split; [exact Hact|]. unfold actionable in Hact.
  destruct (isPaidThisMonth (days now) p); [discriminate Hact|reflexivity].
Qed.

Lemma checkAndSendEmails_sends_to env now st q r :
  In (Send q r) (snd (checkAndSendEmails env now st)) ->
  In q (paymentsToSend now st) /\ r = recipientEmail st.
Proof.
  unfold checkAndSendEmails.
  repeat match goal with
         | |- context [if ?b then _ else _] => destruct b; cbn [snd In]; try tauto
         end.
  unfold runLoop. intros [[]|Hin]%sendLoop_sends_to. exact Hin.
Qed.

(** X4. Every call of the notifier a run makes is for a payment of the list
    that is actionable at the clock of the run and not settled this month,
    and goes to the current recipient. *)
Theorem run_mails_only_unsettled_actionable env now st p r :
  In (Send p r) (snd (checkAndSendEmails env now st)) ->
  r = recipientEmail st /\ In p (payments st) /\
  actionable (days now) p = true /\ isPaidThisMonth (days now) p = false /\
  isSendingRef st = false.
Proof.
  intros Hsend.
  assert (Hguard : isSendingRef st = false).
  { destruct (isSendingRef st) eqn:E; [|reflexivity]. exfalso.
    unfold checkAndSendEmails in Hsend. rewrite E in Hsend. exact Hsend. }
  apply checkAndSendEmails_sends_to in Hsend as [Hin ->].
  apply In_paymentsToSend_actionable in Hin. tauto.
Qed.

(** X5. Whatever path a run takes, it leaves the payments, the recipient and
    the re-entrancy flag as they were, and the old log entries in place
    behind at most one new entry for each payment it had to send. *)
Theorem run_preserves_store env now st :
  let st' := fst (checkAndSendEmails env now st) in
  payments st' = payments st /\
  recipientEmail st' = recipientEmail st /\
  isSendingRef st' = isSendingRef st /\
  exists new,
    emailLogs st' = new ++ emailLogs st /\
    (length new <= length (paymentsToSend now st))%nat.
Proof.
  cbv zeta.
  assert (Hnone : exists new : list EmailLog.t,
             emailLogs st = new ++ emailLogs st /\
             (length new <= length (paymentsToSend now st))%nat)
    by (exists []; split; [reflexivity|cbn; lia]).
  unfold checkAndSendEmails.
  destruct (isSendingRef st) eqn:Hguard; [cbn [fst]; auto|].
  destruct (length (actionablePayments now (payments st)) =? 0)%nat.
  { destruct (_ || _);
      cbn [fst withStatus payments recipientEmail isSendingRef emailLogs]; auto. }
  destruct (length (paymentsToSend now st) =? 0)%nat.
  { destruct (_ && _);
      cbn [fst withStatus payments recipientEmail isSendingRef emailLogs]; auto. }
  cbn [fst]. unfold runLoop.
  destruct (sendLoop_log_grows env (recipientEmail st) (length (paymentsToSend now st))
              (paymentsToSend now st) 0%nat (loopStart now st)) as (new & Hl & Hn).
  cbn [loopStart logs] in Hl.
  assert (Hnew : exists new : list EmailLog.t,
             logs (sendLoop env (recipientEmail st) (length (paymentsToSend now st)) 0
                     (paymentsToSend now st) (loopStart now st)) =
             new ++ emailLogs st /\
             (length new <= length (paymentsToSend now st))%nat)
    by (exists new; by split).
  unfold resolve.
  repeat match goal with
         | |- context [if ?b then _ else _] => destruct b
         end; cbn [payments recipientEmail isSendingRef emailLogs]; auto.
Qed.

(** X6. A payment marked done by a click is not reminded of any more that
    month: with all payments of the id pending at the click, none of that
    id is in [duePayments] afterwards, and a run on the new list does not
    call the notifier for it. *)
Theorem marked_done_not_reminded t now id ps p :
  getMonth t = getMonth now ->
  getFullYear t = getFullYear now ->
  (forall q, In q ps -> RecurringPayment.id q = id -> paidInMonthOf t q = false) ->
  In p (togglePaymentStatus t id ps) ->
  RecurringPayment.id p = id ->
  ~ In p (duePayments now (togglePaymentStatus t id ps)) /\
  forall env st r,
    payments st = togglePaymentStatus t id ps ->
    ~ In (Send p r) (snd (checkAndSendEmails env now st)).
Proof.
  intros Hm Hy Hpending Hin Hid.
  assert (Hpaid : isPaidThisMonth (days now) p = true).
  { unfold togglePaymentStatus in Hin. apply in_map_iff in Hin as (q & Hq & Hin).
    destruct (bool_decide_reflect (RecurringPayment.id q = id)) as [Heq|Hne];
      cbn [negb] in Hq.
    - rewrite (Hpending q Hin Heq) in Hq. subst p.
      apply (isPaidThisMonth_settled now _ t); [reflexivity|exact Hm|exact Hy].
    - subst p. done. }
  split.
  - intros [_ Hact]%In_duePayments. unfold actionable in Hact.
    rewrite Hpaid in Hact. discriminate Hact.
  - intros env st r Hst Hsend.
    apply checkAndSendEmails_sends_to in Hsend as [Hsend _].
    apply In_paymentsToSend_actionable in Hsend as (_ & _ & Hnot).
    rewrite Hpaid in Hnot. discriminate Hnot.
Qed.

(** X7. A run that is shut out by the guard, finds nothing actionable or finds
    everything served today calls nothing and writes neither log nor
    [localStorage]; it only settles the status: under the guard no change,
    with nothing actionable a stale [error] or [missing_config] goes back
    to [idle], and with everything served the status becomes
    [already_sent] unless it is [sent] or [already_sent] already. *)
Theorem run_with_nothing_to_send env now st :
  isSendingRef st = true \/ paymentsToSend now st = [] ->
  let st' := fst (checkAndSendEmails env now st) in
  snd (checkAndSendEmails env now st) = [] /\
  emailLogs st' = emailLogs st /\
  localStorage st' = localStorage st /\
  lastSentTo st' = lastSentTo st /\
  (isSendingRef st = true -> st' = st) /\
  (isSendingRef st = false -> actionablePayments now (payments st) = [] ->
   emailStatus st' =
   if bool_decide (emailStatus st ∈ [error; missing_config]) then idle
   else emailStatus st) /\
  (isSendingRef st = false -> actionablePayments now (payments st) <> [] ->
   emailStatus st' =
   if bool_decide (emailStatus st ∈ [sent; already_sent]) then emailStatus st
   else already_sent).
Proof.
  intros Hidle. cbv zeta. unfold checkAndSendEmails.
  destruct (isSendingRef st) eqn:Hguard; [by repeat split|].
  destruct Hidle as [Hidle|Hnone]; [discriminate Hidle|]. rewrite Hnone.
  destruct (actionablePayments now (payments st)) as [|a l] eqn:Hact;
    cbn [length Nat.eqb]; destruct (emailStatus st) eqn:Hs; cbn;
    by repeat split.
Qed.

End RunInvariants.

(** ** From one run to the next *)

Section NextRun.
Context {tz : TimeZone}.
Import Hooks.

Lemma YearFromTime_same_day t1 t2 : Day t1 = Day t2 -> YearFromTime t1 = YearFromTime t2.
Proof. intros H. unfold YearFromTime. rewrite H. reflexivity. Qed.

Lemma MonthFromTime_same_day t1 t2 : Day t1 = Day t2 -> MonthFromTime t1 = MonthFromTime t2.
Proof.
  intros H. unfold MonthFromTime, DayWithinYear, InLeapYear.
  rewrite (YearFromTime_same_day t1 t2 H), H. reflexivity.
Qed.

Lemma DateFromTime_same_day t1 t2 : Day t1 = Day t2 -> DateFromTime t1 = DateFromTime t2.
Proof.
  intros H. unfold DateFromTime, DayWithinYear, InLeapYear.
  rewrite (MonthFromTime_same_day t1 t2 H), (YearFromTime_same_day t1 t2 H), H.
  reflexivity.
Qed.

(** The day-level constants of the filters depend on the local day only. *)
Lemma days_same_day t1 t2 :
  Day (LocalTime t1) = Day (LocalTime t2) -> days t1 = days t2.
Proof.
  intros H. rewrite !days_fields. cbv zeta.
  pose proof (setDate_succ_Day t1) as H1. pose proof (setDate_succ_Day t2) as H2.
  assert (Hnext : Day (LocalTime (setDate t1 (getDate t1 + 1))) =
                  Day (LocalTime (setDate t2 (getDate t2 + 1)))) by congruence.
  revert Hnext. generalize (setDate t1 (getDate t1 + 1)), (setDate t2 (getDate t2 + 1)).
  intros n1 n2 Hnext. unfold getDate, getMonth, getFullYear.
  rewrite (YearFromTime_same_day _ _ H), (MonthFromTime_same_day _ _ H),
    (DateFromTime_same_day _ _ H), (YearFromTime_same_day _ _ Hnext),
    (MonthFromTime_same_day _ _ Hnext), (DateFromTime_same_day _ _ Hnext).
  reflexivity.
Qed.

Lemma Day_mono t1 t2 : t1 <= t2 -> Day t1 <= Day t2.
Proof. unfold Day, msPerDay. intros. zdiv. Qed.

(** An instant between two instants of one local day is of that day. *)
Lemma Day_between t1 t t2 :
  t1 <= t <= t2 ->
  Day (LocalTime t1) = Day (LocalTime t2) ->
  Day (LocalTime t) = Day (LocalTime t1).
Proof.
  intros [H1 H2] Hday.
  pose proof (Day_mono (LocalTime t1) (LocalTime t)) as Ha.
  pose proof (Day_mono (LocalTime t) (LocalTime t2)) as Hb.
  unfold LocalTime in *. lia.
Qed.

(** One iteration that does not meet [missing_config]: the entry it puts
    in front of the log and the clock it leaves. *)
Lemma sendLoop_step env recipient len k p todo s :
  notify env k p recipient <> MissingConfig ->
  exists s1 log,
    sendLoop env recipient len k (p :: todo) s =
      sendLoop env recipient len (S k) todo s1 /\
    logs s1 = log :: logs s /\
    EmailLog.paymentId log = Some (RecurringPayment.id p) /\
    (EmailLog.status log = LogSuccess <-> notify env k p recipient = Success) /\
    EmailLog.sentAt log = clock s + sendDuration env k /\
    EmailLog.sentAt log <= clock s1.
Proof.
  intros Hne. cbn [sendLoop].
  destruct (notify env k p recipient) eqn:E; [| |done];
    (do 2 eexists; split; [reflexivity|]; cbn [logs clock];
     split; [reflexivity|];
     cbn [EmailLog.paymentId EmailLog.status EmailLog.sentAt];
     split; [reflexivity|];
     split; [rewrite ?bool_decide_eq_true_2 by reflexivity;
             rewrite ?bool_decide_eq_false_2 by discriminate;
             intuition discriminate|];
     split; [reflexivity|]; unfold interSendDelay; destruct (1 <? len)%nat; lia).
Qed.

(** The entries a loop without [missing_config] writes: one for each item,
    under the item's id, [success] exactly when the send succeeded, stamped
    between the start and the end of the loop. *)
Lemma sendLoop_entries env recipient len todo :
  (forall k, 0 <= sendDuration env k) ->
  forall k s,
  ~ In MissingConfig (outcomes env recipient k todo) ->
  clock s <= clock (sendLoop env recipient len k todo s) /\
  exists new,
    logs (sendLoop env recipient len k todo s) = new ++ logs s /\
    (forall log, In log new ->
       clock s <= EmailLog.sentAt log <= clock (sendLoop env recipient len k todo s) /\
       exists i p, todo !! i = Some p /\
         EmailLog.paymentId log = Some (RecurringPayment.id p) /\
         (EmailLog.status log = LogSuccess <->
          notify env (k + i) p recipient = Success)) /\
    (forall i p, todo !! i = Some p ->
       exists log, In log new /\
         EmailLog.paymentId log = Some (RecurringPayment.id p) /\
         (EmailLog.status log = LogSuccess <->
          notify env (k + i) p recipient = Success)).
Proof.
  intros Hdur. induction todo as [|p todo IH]; intros k s Hfree.
  - cbn [sendLoop]. split; [lia|]. exists []. split; [reflexivity|].
    split; [intros log []|intros i q Hq; discriminate Hq].
  - cbn [outcomes In] in Hfree.
    assert (Hrest : ~ In MissingConfig (outcomes env recipient (S k) todo)) by tauto.
    assert (Hne : notify env k p recipient <> MissingConfig) by (intros E; tauto).
    destruct (sendLoop_step env recipient len k p todo s Hne)
      as (s1 & entry & -> & Hs1 & Hid & Hst & Hat & Hafter).
    destruct (IH (S k) s1 Hrest) as (Hclock & new & Hl & Hnew & Hall).
    pose proof (Hdur k) as Hk.
    set (l := sendLoop env recipient len (S k) todo s1) in *.
    split; [lia|]. exists (new ++ [entry]).
    split; [rewrite Hl, Hs1, <- app_assoc; reflexivity|]. split.
    + intros log [Hlog|[<-|[]]]%in_app_iff.
      * destruct (Hnew log Hlog) as (Hbetween & i & q & Hq & Hqid & Hqst).
        split; [lia|]. exists (S i), q. rewrite <- Nat.add_succ_comm. auto.
      * split; [lia|]. exists 0%nat, p. rewrite Nat.add_0_r. auto.
    + intros [|i] q Hq.
      * injection Hq as <-. exists entry. rewrite Nat.add_0_r.
        split; [apply in_app_iff; right; by left|auto].
      * destruct (Hall i q Hq) as (log & Hlog & Hqid & Hqst).
        exists log. rewrite <- Nat.add_succ_comm.
        split; [apply in_app_iff; by left|auto].
Qed.

Lemma outcomes_lookup env recipient todo : forall k i p,
  todo !! i = Some p ->
  In (notify env (k + i) p recipient) (outcomes env recipient k todo).
Proof.
  induction todo as [|q todo IH]; intros k [|i] p Hp; try discriminate Hp.
  - injection Hp as ->. rewrite Nat.add_0_r. by left.
  - right. rewrite <- Nat.add_succ_comm. by apply IH.
Qed.

(** The state a run leaves when its loop met no [missing_config]. *)
Lemma run_complete_state env now st :
  isSendingRef st = false ->
  paymentsToSend now st <> [] ->
  let outs := outcomes env (recipientEmail st) 0 (paymentsToSend now st) in
  ~ In MissingConfig outs ->
  let st' := fst (checkAndSendEmails env now st) in
  payments st' = payments st /\
  recipientEmail st' = recipientEmail st /\
  isSendingRef st' = false /\
  emailLogs st' = logs (runLoop env now st) /\
  (~ In Error outs ->
   emailStatus st' = sent /\
   localStorage st' =
   {| lastEmailSentDate := Some (toDateString now);
      lastEmailSentTo := Some (recipientEmail st) |}) /\
  (In Error outs ->
   emailStatus st' = error /\ localStorage st' = localStorage st).
Proof.
  intros Hguard Hsome outs Hfree st'. subst st'.
  rewrite checkAndSendEmails_runs by done. cbn [fst].
  destruct (runLoop_complete env now st Hfree) as (Hm & He & Hs & _ & _).
  destruct (outcomes_some env (recipientEmail st) _ 0%nat Hsome Hfree) as [Hany|Hany];
    fold outs in He, Hs, Hany; generalize dependent outs; intros outs _ He Hs Hany;
    generalize (toDateString now); intros todayStr;
    unfold resolve; rewrite Hm;
    destruct (hasErrors (runLoop env now st));
    destruct (Nat.ltb_spec 0 (sentCount (runLoop env now st)));
    cbn [andb negb payments recipientEmail isSendingRef emailLogs emailStatus
         localStorage];
    repeat split; try done; try tauto; try (intros; intuition (lia || done)).
Qed.

(** The entries of a run whose loop met no [missing_config]. *)
Lemma runLoop_entries env now st :
  (forall k, 0 <= sendDuration env k) ->
  ~ In MissingConfig (outcomes env (recipientEmail st) 0 (paymentsToSend now st)) ->
  exists new,
    logs (runLoop env now st) = new ++ emailLogs st /\
    (forall log, In log new ->
       now <= EmailLog.sentAt log <= clock (runLoop env now st) /\
       exists i p, paymentsToSend now st !! i = Some p /\
         EmailLog.paymentId log = Some (RecurringPayment.id p) /\
         (EmailLog.status log = LogSuccess <->
          notify env i p (recipientEmail st) = Success)) /\
    (forall i p, paymentsToSend now st !! i = Some p ->
       exists log, In log new /\
         EmailLog.paymentId log = Some (RecurringPayment.id p) /\
         (EmailLog.status log = LogSuccess <->
          notify env i p (recipientEmail st) = Success)).
Proof.
  intros Hdur Hfree. unfold runLoop.
  destruct (sendLoop_entries env (recipientEmail st)
              (length (paymentsToSend now st)) (paymentsToSend now st) Hdur
              0%nat (loopStart now st) Hfree) as (_ & new & Hl & Hnew & Hall).
  exists new. cbn [loopStart logs clock Nat.add] in *. auto.
Qed.

(** A run in the state [sent] that finds every actionable payment served
    does nothing at all. *)
Lemma run_idle_when_served env now st :
  isSendingRef st = false ->
  paymentsToSend now st = [] ->
  emailStatus st = sent ->
  checkAndSendEmails env now st = (st, []).
Proof.
  intros Hguard Hnone Hsent. unfold checkAndSendEmails.
  rewrite Hguard, Hnone, Hsent.
  destruct (length (actionablePayments now (payments st)) =? 0)%nat; reflexivity.
Qed.

Lemma actionablePayments_same_day now now' ps :
  Day (LocalTime now') = Day (LocalTime now) ->
  actionablePayments now' ps = actionablePayments now ps.
Proof.
  intros Hday. unfold actionablePayments. by rewrite (days_same_day now' now Hday).
Qed.

Lemma toDateString_of_day t1 t2 :
  Day (LocalTime t1) = Day (LocalTime t2) -> toDateString t1 = toDateString t2.
Proof. apply toDateString_same_day. Qed.

(** X8. After a run in which every send succeeded, a second run on the same
    local day does nothing: it calls the notifier for no payment and leaves
    the state as it is.  (Ids are truthy strings, the sends take no
    negative time and the first run ends on the day it started.) *)
Theorem second_run_same_day_does_nothing env env' now now' st :
  isSendingRef st = false ->
  paymentsToSend now st <> [] ->
  (forall o, In o (outcomes env (recipientEmail st) 0 (paymentsToSend now st)) ->
             o = Success) ->
  (forall p, In p (payments st) -> truthy (RecurringPayment.id p) = true) ->
  (forall k, 0 <= sendDuration env k) ->
  Day (LocalTime (clock (runLoop env now st))) = Day (LocalTime now) ->
  Day (LocalTime now') = Day (LocalTime now) ->
  let st' := fst (checkAndSendEmails env now st) in
  checkAndSendEmails env' now' st' = (st', []).
Proof.
  intros Hguard Hsome Hok Hids Hdur Hend Hday st'.
  assert (Hfree : ~ In MissingConfig
                    (outcomes env (recipientEmail st) 0 (paymentsToSend now st)))
    by (intros H; apply Hok in H; discriminate H).
  assert (Hnoerr : ~ In Error
                     (outcomes env (recipientEmail st) 0 (paymentsToSend now st)))
    by (intros H; apply Hok in H; discriminate H).
  destruct (run_complete_state env now st Hguard Hsome Hfree)
    as (Hps & Hrec & Hg' & Hlogs & Hsent & _).
  destruct (Hsent Hnoerr) as [Hstatus Hstore]. clear Hsent.
  destruct (runLoop_entries env now st Hdur Hfree) as (new & Hnew & Hbetween & Hall).
  fold st' in Hps, Hrec, Hg', Hlogs, Hstatus, Hstore. rewrite Hnew in Hlogs.
  clearbody st'.
  apply run_idle_when_served; [exact Hg'| |exact Hstatus].
  unfold paymentsToSend. rewrite Hps, (actionablePayments_same_day now now' _ Hday).
  apply filter_all_false. intros p Hp. apply negb_false_iff, bool_decide_eq_true.
  apply elem_of_sentPaymentIds.
  assert (Hsame : emailChanged st' = false)
    by (apply emailChanged_false; rewrite Hstore, Hrec; reflexivity).
  split; [exact Hsame|]. rewrite Hlogs.
  rewrite (toDateString_of_day now' now Hday).
  destruct (decide (RecurringPayment.id p ∈ sentPaymentIds now st)) as [Hserved|Hnot].
  - apply elem_of_sentPaymentIds in Hserved as (_ & log & Hin & Hs).
    exists log. split; [apply in_app_iff; by right|exact Hs].
  - assert (Hto : In p (paymentsToSend now st)) by (by apply In_paymentsToSend).
    apply list_elem_of_In, list_elem_of_lookup in Hto as [i Hi].
    destruct (Hall i p Hi) as (log & Hin & Hid & Hst).
    exists log. split; [apply in_app_iff; by left|].
    destruct (Hbetween log Hin) as [Hat _].
    split; [|split; [|split]].
    + apply toDateString_of_day. apply (Day_between now _ _ Hat). by rewrite Hend.
    + apply Hst. apply Hok. apply (outcomes_lookup env _ _ 0%nat i p Hi).
    + exact Hid.
    + apply Hids. by apply In_duePayments in Hp as [Hp _].
Qed.

(** X9. Retry after a run that met no [missing_config], with the stored
    recipient still the current one: on the same local day the next run
    leaves out every payment whose send succeeded (ids being truthy) and
    takes up again every payment none of whose sends, under its id,
    succeeded. *)
Theorem retry_takes_up_failed_sends env now now' st :
  isSendingRef st = false ->
  paymentsToSend now st <> [] ->
  ~ In MissingConfig (outcomes env (recipientEmail st) 0 (paymentsToSend now st)) ->
  lastEmailSentTo (localStorage st) = Some (recipientEmail st) ->
  (forall k, 0 <= sendDuration env k) ->
  Day (LocalTime (clock (runLoop env now st))) = Day (LocalTime now) ->
  Day (LocalTime now') = Day (LocalTime now) ->
  let st' := fst (checkAndSendEmails env now st) in
  forall i p, paymentsToSend now st !! i = Some p ->
    (notify env i p (recipientEmail st) = Success ->
     truthy (RecurringPayment.id p) = true ->
     ~ In p (paymentsToSend now' st')) /\
    ((forall j q, paymentsToSend now st !! j = Some q ->
                  RecurringPayment.id q = RecurringPayment.id p ->
                  notify env j q (recipientEmail st) <> Success) ->
     In p (paymentsToSend now' st')).
Proof.
  intros Hguard Hsome Hfree Hstored Hdur Hend Hday st' i p Hi.
  destruct (run_complete_state env now st Hguard Hsome Hfree)
    as (Hps & Hrec & _ & Hlogs & Hsent & Herr).
  destruct (runLoop_entries env now st Hdur Hfree) as (new & Hnew & Hbetween & Hall).
  fold st' in Hps, Hrec, Hlogs, Hsent, Herr. rewrite Hnew in Hlogs.
  assert (Hsame : emailChanged st' = false).
  { apply emailChanged_false. rewrite Hrec.
    destruct (In_dec SendResult_eq_dec Error
                (outcomes env (recipientEmail st) 0 (paymentsToSend now st)))
      as [Hin|Hnot].
    - destruct (Herr Hin) as [_ ->]. exact Hstored.
    - destruct (Hsent Hnot) as [_ ->]. reflexivity. }
  clear Hsent Herr. clearbody st'.
  assert (Hp : In p (paymentsToSend now st))
    by (apply list_elem_of_In, list_elem_of_lookup; by exists i).
  split.
  - intros Hok Hid. rewrite In_paymentsToSend. intros [_ Hnot]. apply Hnot.
    apply elem_of_sentPaymentIds. split; [exact Hsame|]. rewrite Hlogs.
    destruct (Hall i p Hi) as (log & Hin & Hpid & Hst).
    exists log. split; [apply in_app_iff; by left|].
    destruct (Hbetween log Hin) as [Hat _].
    split; [|split; [|split]]; [|by apply Hst|exact Hpid|exact Hid].
    rewrite (toDateString_of_day now' now Hday).
    apply toDateString_of_day. apply (Day_between now _ _ Hat). by rewrite Hend.
  - intros Hfailed. apply In_paymentsToSend in Hp as [Hact Hnot].
    apply In_paymentsToSend. split.
    + by rewrite Hps, (actionablePayments_same_day now now' _ Hday).
    + rewrite elem_of_sentPaymentIds, Hlogs, (toDateString_of_day now' now Hday).
      intros (_ & log & [Hin|Hin]%in_app_iff & Hs).
      * destruct (Hbetween log Hin) as (_ & j & q & Hj & Hpid & Hst).
        destruct Hs as (_ & Hok & Hlid & _).
        apply (Hfailed j q Hj); [congruence|by apply Hst].
      * apply Hnot. apply elem_of_sentPaymentIds.
        split; [by apply emailChanged_false|]. by exists log.
Qed.

Lemma outcomes_app_free env recipient pre rest : forall k,
  ~ In MissingConfig (outcomes env recipient k (pre ++ rest)) ->
  ~ In MissingConfig (outcomes env recipient k pre).
Proof.
  induction pre as [|p pre IH]; intros k Hfree; cbn [app outcomes In] in *; [tauto|].
  intros [Hmc|Hin]; [tauto|]. apply (IH (S k)); tauto.
Qed.

(** A run with the guard down that meets no [missing_config] calls the
    notifier for every payment it has to send. *)
Lemma checkAndSendEmails_calls_all env now st p :
  isSendingRef st = false ->
  ~ In MissingConfig (outcomes env (recipientEmail st) 0 (paymentsToSend now st)) ->
  In p (paymentsToSend now st) ->
  In (Send p (recipientEmail st)) (snd (checkAndSendEmails env now st)).
Proof.
  intros Hguard Hfree Hin. apply in_split in Hin as (pre & post & Hsplit).
  apply (checkAndSendEmails_calls_reached env now st pre p post Hguard Hsplit).
  rewrite Hsplit in Hfree. by apply outcomes_app_free in Hfree.
Qed.

(** X10. While [lastEmailSentTo] is not the current recipient (never written,
    or written for another address), a run in which some send fails logs
    its deliveries as successes but leaves [lastEmailSentTo] as it is; so
    the next run, if it meets no [missing_config], calls the notifier for
    every payment actionable then, the ones just delivered and logged
    included. *)
Theorem failed_run_resends_delivered env env' now now' st :
  isSendingRef st = false ->
  paymentsToSend now st <> [] ->
  let outs := outcomes env (recipientEmail st) 0 (paymentsToSend now st) in
  ~ In MissingConfig outs ->
  In Error outs ->
  lastEmailSentTo (localStorage st) <> Some (recipientEmail st) ->
  (forall k, 0 <= sendDuration env k) ->
  let st' := fst (checkAndSendEmails env now st) in
  ~ In MissingConfig
      (outcomes env' (recipientEmail st) 0 (actionablePayments now' (payments st))) ->
  let again := snd (checkAndSendEmails env' now' st') in
  (forall p, In p (actionablePayments now' (payments st)) ->
             In (Send p (recipientEmail st)) again) /\
  (forall i p,
     paymentsToSend now st !! i = Some p ->
     notify env i p (recipientEmail st) = Success ->
     In p (actionablePayments now' (payments st)) ->
     (exists log, In log (emailLogs st') /\
        EmailLog.paymentId log = Some (RecurringPayment.id p) /\
        EmailLog.status log = LogSuccess) /\
     In (Send p (recipientEmail st)) again).
Proof.
  intros Hguard Hsome outs Hfree Herror Hstale Hdur st' Hfree' again.
  destruct (run_complete_state env now st Hguard Hsome Hfree)
    as (Hps & Hrec & Hg' & Hlogs & _ & Herr).
  destruct (Herr Herror) as [_ Hstore].
  destruct (runLoop_entries env now st Hdur Hfree) as (new & Hnew & _ & Hentries).
  fold st' in Hps, Hrec, Hg', Hlogs, Hstore. rewrite Hnew in Hlogs.
  subst again. clearbody st'.
  assert (Hall : paymentsToSend now' st' = actionablePayments now' (payments st)).
  { rewrite <- Hps. unfold paymentsToSend, sentPaymentIds, emailChanged.
    rewrite bool_decide_eq_false_2 by (by rewrite Hstore, Hrec). cbn [negb].
    apply filter_all_true. intros q _.
    rewrite bool_decide_eq_false_2 by apply not_elem_of_empty. reflexivity. }
  assert (Hsent : forall p, In p (actionablePayments now' (payments st)) ->
                            In (Send p (recipientEmail st))
                              (snd (checkAndSendEmails env' now' st'))).
  { intros p Hp. rewrite <- Hrec.
    apply checkAndSendEmails_calls_all; [exact Hg'| |]; by rewrite ?Hall, ?Hrec. }
  split; [exact Hsent|]. intros i p Hi Hok Hp. split; [|by apply Hsent].
  destruct (Hentries i p Hi) as (log & Hin & Hid & Hst).
  exists log. rewrite Hlogs. split; [apply in_app_iff; by left|].
  split; [exact Hid|by apply Hst].
Qed.

End NextRun.

(** ** The scheduler around a run *)

Section SchedulerFacts.
Context {tz : TimeZone}.
Import Hooks.

(** What [schedule] computes, with the fire times in local time. *)
Lemma schedule_unfold now storage :
  let today := Day (LocalTime now) in
  exists targetTime tomorrowSixAm,
    LocalTime targetTime = MakeDate today (MakeTime 6 0 0 0) /\
    LocalTime tomorrowSixAm = MakeDate (today + 1) (MakeTime 6 0 0 0) /\
    schedule now storage =
    if bool_decide (lastEmailSentDate storage = Some (toDateString now))
    then SetTimeout (tomorrowSixAm - now)
    else if targetTime <=? now then CallNow
    else SetTimeout (targetTime - now).
Proof.
  cbv zeta.
  exists (setHours now 6 0 0 0),
    (setDate (setHours now 6 0 0 0) (getDate (setHours now 6 0 0 0) + 1)).
  split; [apply setHours_local|]. split; [apply tomorrowSixAm_local|]. reflexivity.
Qed.


(** X12. After a run in which every send succeeded, the scheduler, at any later
    instant of that local day, does not call the check again: it sets the
    timer that fires at 06:00 of the next day. *)
Theorem schedule_after_sent_run env now now' st :
  isSendingRef st = false ->
  paymentsToSend now st <> [] ->
  (forall o, In o (outcomes env (recipientEmail st) 0 (paymentsToSend now st)) ->
             o = Success) ->
  Day (LocalTime now') = Day (LocalTime now) ->
  let st' := fst (checkAndSendEmails env now st) in
  exists ms,
    schedule now' (localStorage st') = SetTimeout ms /\
    LocalTime (now' + ms) = MakeDate (Day (LocalTime now') + 1) (MakeTime 6 0 0 0).
Proof.
  intros Hguard Hsome Hok Hday st'.
  assert (Hfree : ~ In MissingConfig
                    (outcomes env (recipientEmail st) 0 (paymentsToSend now st)))
    by (intros H; apply Hok in H; discriminate H).
  assert (Hnoerr : ~ In Error
                     (outcomes env (recipientEmail st) 0 (paymentsToSend now st)))
    by (intros H; apply Hok in H; discriminate H).
  destruct (run_complete_state env now st Hguard Hsome Hfree)
    as (_ & _ & _ & _ & Hsent & _).
  destruct (Hsent Hnoerr) as [_ Hstore]. fold st' in Hstore. clearbody st'.
  destruct (schedule_unfold now' (localStorage st')) as (target & tomorrow & _ & Hn & ->).
  rewrite Hstore. cbn [lastEmailSentDate].
  rewrite (toDateString_of_day now now') by done.
  rewrite bool_decide_eq_true_2 by reflexivity.
  eexists. split; [reflexivity|]. rewrite <- Hn. unfold LocalTime. lia.
Qed.

(** X13. After a run in which some send failed, on a day without a recorded
    dispatch and at or after 06:00, the scheduler calls the check again at
    once: [lastEmailSentDate] was not written. *)
Theorem schedule_after_failed_run env now now' st :
  isSendingRef st = false ->
  paymentsToSend now st <> [] ->
  let outs := outcomes env (recipientEmail st) 0 (paymentsToSend now st) in
  ~ In MissingConfig outs ->
  In Error outs ->
  lastEmailSentDate (localStorage st) <> Some (toDateString now') ->
  MakeDate (Day (LocalTime now')) (MakeTime 6 0 0 0) <= LocalTime now' ->
  let st' := fst (checkAndSendEmails env now st) in
  localStorage st' = localStorage st /\
  schedule now' (localStorage st') = CallNow.
Proof.
  intros Hguard Hsome outs Hfree Herror Hnot Hlate st'.
  destruct (run_complete_state env now st Hguard Hsome Hfree)
    as (_ & _ & _ & _ & _ & Herr).
  destruct (Herr Herror) as [_ Hstore]. fold st' in Hstore. clearbody st'.
  split; [exact Hstore|]. rewrite Hstore.
  destruct (schedule_unfold now' (localStorage st)) as (target & tomorrow & Ht & _ & ->).
  rewrite bool_decide_eq_false_2 by exact Hnot.
  rewrite <- Ht in Hlate. unfold LocalTime in Hlate.
  destruct (Z.leb_spec target now'); [reflexivity|lia].
Qed.

End SchedulerFacts.

(** ** The month's end, the page and the mail *)

Section MonthEnd.
Context {tz : TimeZone}.
Import Hooks.

(** X14. The actionable list is the same at any two instants of one local
    day. *)
Theorem duePayments_same_day t1 t2 ps :
  Day (LocalTime t1) = Day (LocalTime t2) ->
  duePayments t1 ps = duePayments t2 ps.
Proof. intros Hday. unfold duePayments. by rewrite (days_same_day t1 t2 Hday). Qed.

Lemma getDate_bounds now :
  1 <= getDate now <= daysInMonth (getFullYear now) (getMonth now).
Proof. apply getters_civil. Qed.

(** The day after the last day of a month is day 1. *)
Lemma tomorrowDay_rollover now :
  getDate now = daysInMonth (getFullYear now) (getMonth now) ->
  tomorrowDay (days now) = 1.
Proof.
  pose proof (days_tomorrow now) as Ht. revert Ht.
  generalize (tomorrowYear (days now)), (tomorrowMonth (days now)),
    (tomorrowDay (days now)), (getFullYear now), (getMonth now), (getDate now).
  intros y' m' d' y m d Ht Hlast. unfold spec_tomorrow in Ht.
  destruct (Z.ltb_spec d (daysInMonth y m)); [lia|].
  destruct (m <? 11); by injection Ht as _ _ ->.
Qed.

(** The flags of an unsettled payment decide its place in the list. *)
Lemma In_duePayments_flags now ps p :
  isPaidThisMonth (days now) p = false ->
  In p ps ->
  (In p (duePayments now ps) <->
   RecurringPayment.dueDay p = getDate now \/
   RecurringPayment.dueDay p = tomorrowDay (days now) \/
   (tomorrowDay (days now) = daysInTomorrowMonth (days now) /\
    daysInTomorrowMonth (days now) < RecurringPayment.dueDay p) \/
   RecurringPayment.dueDay p < getDate now).
Proof.
  intros Hpaid Hin. rewrite In_duePayments. unfold actionable.
  rewrite Hpaid, isTomorrow_unfold. unfold isToday, isOverdue.
  rewrite currentDay_days.
  generalize (tomorrowDay (days now)), (daysInTomorrowMonth (days now)), (getDate now).
  intros td dim d.
  rewrite !orb_true_iff, andb_true_iff, !Z.eqb_eq, !Z.ltb_lt. tauto.
Qed.

(** X15. An unsettled obligation whose due day does not exist in the current
    month (it exceeds the month's length) is actionable on one day of that
    month only, the day before the last: not before, and not on the last
    day itself. *)
Theorem beyond_month_end_actionable_on_eve_only now p ps :
  0 <= LocalTime now ->
  isPaidThisMonth (days now) p = false ->
  In p ps ->
  daysInMonth (getFullYear now) (getMonth now) < RecurringPayment.dueDay p ->
  (In p (duePayments now ps) <->
   getDate now = daysInMonth (getFullYear now) (getMonth now) - 1).
Proof.
  intros Hnow Hpaid Hin Hbeyond. rewrite (In_duePayments_flags now ps p Hpaid Hin).
  pose proof (getDate_bounds now) as Hd.
  pose proof (daysInMonth_bounds (getFullYear now) (getMonth now)) as Hlen.
  pose proof (daysInTomorrowMonth_bounds now) as Hnext.
  pose proof (days_daysInTomorrowMonth now Hnow) as Hdim.
  pose proof (tomorrowDay_succ now) as Hsucc.
  pose proof (tomorrowDay_rollover now) as Hroll.
  revert Hbeyond Hd Hlen Hnext Hdim Hsucc Hroll.
  generalize (daysInTomorrowMonth (days now)), (tomorrowDay (days now)),
    (tomorrowMonth (days now)), (tomorrowYear (days now)),
    (RecurringPayment.dueDay p), (getDate now).
  generalize (getFullYear now), (getMonth now).
  intros y m dim' td tm ty due d Hbeyond Hd Hlen Hnext Hdim Hsucc Hroll.
  destruct (Z.lt_ge_cases d (daysInMonth y m)) as [Hlt|Hge].
  - destruct (Hsucc Hlt) as (-> & -> & ->). subst dim'. lia.
  - assert (d = daysInMonth y m) as Hlast by lia. rewrite (Hroll Hlast). lia.
Qed.

(** [setDate] to a day that exists in the month stays in the month. *)
Lemma setDate_in_month t d :
  1 <= d <= daysInMonth (getFullYear t) (getMonth t) ->
  getFullYear (setDate t d) = getFullYear t /\
  getMonth (setDate t d) = getMonth t /\
  getDate (setDate t d) = d.
Proof.
  intros Hd. destruct (getters_civil t) as (Hm & _ & _).
  assert (Hc : civil (Day (LocalTime (setDate t d))) (getFullYear t) (getMonth t) d).
  { split; [exact Hm|]. split; [exact Hd|].
    unfold setDate. cbv zeta. rewrite LocalTime_UTC.
    rewrite Day_MakeDate by apply TimeWithinDay_bounds.
    apply MakeDay_in_year. exact Hm. }
  apply civil_unique in Hc. exact Hc.
Qed.

(** X16. The date a reminder names.  For an overdue payment (due day from 1 on)
    it is the due day in the current month and year.  For every other
    payment it is the calendar's tomorrow, whatever the due day is: a
    payment due today is announced for tomorrow. *)
Theorem reminder_names_due_day_or_tomorrow now payment :
  (ReminderEmail.isOverdue now payment = true ->
   1 <= RecurringPayment.dueDay payment ->
   ReminderEmail.dateStr now payment =
   (getMonth now, RecurringPayment.dueDay payment, getFullYear now)) /\
  (ReminderEmail.isOverdue now payment = false ->
   ReminderEmail.dateStr now payment =
   let '(y, m, d) := spec_tomorrow (getFullYear now) (getMonth now) (getDate now) in
   (m, d, y)).
Proof.
  unfold ReminderEmail.dateStr, ReminderEmail.dueDate,
    ReminderEmail.toLocaleDateString. split.
  - intros Hover Hpos. rewrite Hover.
    apply Z.ltb_lt in Hover. pose proof (getDate_bounds now) as Hb.
    destruct (setDate_in_month now (RecurringPayment.dueDay payment))
      as (-> & -> & ->); [lia|reflexivity].
  - intros Hnot. rewrite Hnot.
    pose proof (setDate_succ_fields now) as Ht. cbv zeta in Ht.
    destruct (spec_tomorrow _ _ _) as [[y m] d]. injection Ht as -> -> ->.
    reflexivity.
Qed.

(** X17. The label of the payments page against the list of the banner and the
    mail, for a payment of the list: [Paid] is the settled status; a payment
    labelled [Today] or [Overdue-nD] is in the list, and [n] is the number
    of days since the due day; a payment labelled [Tomorrow] is in the list
    except on the last day of the month. *)
Theorem label_against_duePayments now p ps :
  In p ps ->
  let label :=
    PaymentsPage.getDueInString now (RecurringPayment.dueDay p)
      (RecurringPayment.lastPaidDate p) in
  (label = LabelPaid <-> isPaidThisMonth (days now) p = true) /\
  (label = LabelToday -> In p (duePayments now ps)) /\
  (forall n, label = LabelOverdue n ->
     In p (duePayments now ps) /\ n = getDate now - RecurringPayment.dueDay p /\ 0 < n) /\
  (label = LabelTomorrow ->
   (In p (duePayments now ps) <->
    getDate now < daysInMonth (getFullYear now) (getMonth now))).
Proof.
  intros Hin label. subst label. unfold PaymentsPage.getDueInString. cbv zeta.
  change (match RecurringPayment.lastPaidDate p with
          | Some paid => (getMonth paid =? getMonth now) &&
                         (getFullYear paid =? getFullYear now)
          | None => false
          end) with (PaymentStore.paidInMonthOf now p).
  rewrite <- paidInMonthOf_isPaidThisMonth.
  destruct (isPaidThisMonth (days now) p) eqn:Hpaid.
  { repeat split; try done; intros; discriminate. }
  pose proof (In_duePayments_flags now ps p Hpaid Hin) as Hflags.
  pose proof (getDate_bounds now) as Hd.
  pose proof (daysInTomorrowMonth_bounds now) as Hnext.
  pose proof (tomorrowDay_succ now) as Hsucc.
  pose proof (tomorrowDay_rollover now) as Hroll.
  revert Hflags Hd Hnext Hsucc Hroll.
  generalize (daysInTomorrowMonth (days now)), (tomorrowDay (days now)),
    (tomorrowMonth (days now)), (tomorrowYear (days now)),
    (RecurringPayment.dueDay p), (getDate now), (duePayments now ps).
  generalize (getFullYear now), (getMonth now).
  intros y m dim' td tm ty due d due_list Hflags Hd Hnext Hsucc Hroll.
  destruct Hflags as [Hout Hflags].
  destruct (Z.eqb_spec due d) as [Heq|Hne].
  { repeat split; try done; try (intros; discriminate). intros _. apply Hflags. auto. }
  destruct (Z.ltb_spec (due - d) 0) as [Hneg|Hpos].
  { assert (Hmember : In p due_list) by (apply Hflags; lia).
    split; [split; intros; discriminate|]. split; [intros; discriminate|].
    split; [|intros; discriminate].
    intros n [= <-]. split; [exact Hmember|lia]. }
  destruct (Z.eqb_spec (due - d) 1) as [Hone|Hmore].
  - repeat split; try done; try (intros; discriminate).
    + intros Hmember. destruct (Z.lt_ge_cases d (daysInMonth y m)) as [|Hge]; [done|].
      assert (d = daysInMonth y m) as Hlast by lia. specialize (Hroll Hlast).
      apply Hout in Hmember. lia.
    + intros Hlt. apply Hflags. destruct (Hsucc Hlt) as (-> & _ & _). lia.
  - repeat split; try done; intros; discriminate.
Qed.

End MonthEnd.

(** ** The notifier of [emailService.ts] in a run *)

Section EmailServiceRun.
Context {tz : TimeZone}.
Import Hooks.

Lemma outcomes_emailjs_configured c delivered duration ids recipient todo : forall k,
  EmailService.credentialsMissing c = false ->
  ~ In MissingConfig
      (outcomes (emailjsEnv c delivered duration ids) recipient k todo).
Proof.
  induction todo as [|p todo IH]; intros k Hc; cbn [outcomes In]; [tauto|].
  intros [Hmc|Hin]; [|by apply (IH (S k))].
  cbn [emailjsEnv notify] in Hmc. unfold EmailService.sendPaymentReminderEmail in Hmc.
  rewrite Hc in Hmc. destruct (delivered k); discriminate Hmc.
Qed.

(** X18. With the notifier of [emailService.ts] the configuration decides for
    the whole run.  If a credential is empty or a [YOUR_] placeholder, the
    run stops at its first payment: one call, no log entry, [localStorage]
    untouched, status [missing_config].  Otherwise no run ends in
    [missing_config]: every payment to send gets its log entry and the status
    is [sent] or [error]. *)
Theorem run_with_emailjs_notifier c delivered duration ids now st :
  isSendingRef st = false ->
  paymentsToSend now st <> [] ->
  let env := emailjsEnv c delivered duration ids in
  let st' := fst (checkAndSendEmails env now st) in
  (EmailService.credentialsMissing c = true ->
   emailStatus st' = missing_config /\
   emailLogs st' = emailLogs st /\
   localStorage st' = localStorage st /\
   exists x, head (paymentsToSend now st) = Some x /\
             snd (checkAndSendEmails env now st) = [Send x (recipientEmail st)]) /\
  (EmailService.credentialsMissing c = false ->
   (emailStatus st' = sent \/ emailStatus st' = error) /\
   length (emailLogs st') =
   (length (paymentsToSend now st) + length (emailLogs st))%nat).
Proof.
  intros Hguard Hsome env st'. subst st'. split; intros Hc.
  - rewrite checkAndSendEmails_runs by done. cbn [fst snd].
    destruct (paymentsToSend now st) as [|x post] eqn:Hsend; [done|].
    destruct (runLoop_aborted env now st [] x post Hsend) as (Hm & (new & Hl & Hn) & Hf).
    { intros []. }
    { cbn [length]. subst env. cbn [emailjsEnv notify].
      unfold EmailService.sendPaymentReminderEmail. by rewrite Hc. }
    destruct new; [|discriminate Hn].
    unfold resolve. rewrite Hm. cbn [emailStatus emailLogs localStorage].
    repeat split; [exact Hl|]. exists x. split; [reflexivity|exact Hf].
  - pose proof (outcomes_emailjs_configured c delivered duration ids
                  (recipientEmail st) (paymentsToSend now st) 0%nat Hc) as Hfree.
    fold env in Hfree.
    destruct (run_complete_state env now st Hguard Hsome Hfree)
      as (_ & _ & _ & Hlogs & Hsent & Herr).
    destruct (runLoop_complete env now st Hfree) as (_ & _ & _ & (new & Hl & Hn) & _).
    split.
    + destruct (In_dec SendResult_eq_dec Error
                  (outcomes env (recipientEmail st) 0 (paymentsToSend now st)))
        as [Hin|Hnot]; [right; by apply Herr|left; by apply Hsent].
    + rewrite Hlogs, Hl, length_app. f_equal.
      unfold loggedFor in Hn. apply (f_equal length) in Hn.
      by rewrite length_rev, !length_map in Hn.
Qed.

End EmailServiceRun.

(** ** The payments page *)

Section PaymentsPageFacts.
Import PaymentsPage.

Lemma processRow_spec random p prev :
  truthy random = true ->
  (completeRow p = false /\ processRow random p prev = prev) \/
  (completeRow p = true /\
   exists q,
     processRow random p prev = prev ++ [q] /\
     PartialPayment.serviceName p = Some (RecurringPayment.serviceName q) /\
     PartialPayment.amount p = Some (RecurringPayment.amount q) /\
     PartialPayment.dueDay p = Some (RecurringPayment.dueDay q) /\
     RecurringPayment.lastPaidDate q = default None (PartialPayment.lastPaidDate p) /\
     (truthyString (PartialPayment.id p) = true ->
      PartialPayment.id p = Some (RecurringPayment.id q)) /\
     (truthyString (PartialPayment.id p) = false -> RecurringPayment.id q = random) /\
     truthy (RecurringPayment.id q) = true /\
     truthy (RecurringPayment.serviceName q) = true /\
     RecurringPayment.amount q <> 0 /\
     RecurringPayment.dueDay q <> 0).
Proof.
  intros Hrandom. unfold processRow, completeRow.
  destruct (truthyString (PartialPayment.serviceName p)) eqn:Hn; cbn [andb];
    [|by left].
  destruct (truthyNumber (PartialPayment.amount p)) eqn:Ha; cbn [andb]; [|by left].
  destruct (truthyNumber (PartialPayment.dueDay p)) eqn:Hd; cbn [andb]; [|by left].
  right. split; [reflexivity|]. eexists. split; [reflexivity|].
  cbn [RecurringPayment.id RecurringPayment.serviceName RecurringPayment.amount
       RecurringPayment.dueDay RecurringPayment.lastPaidDate].
  destruct p as [i [n|] [a|] [d|] paid]; cbn in Hn, Ha, Hd; try discriminate.
  cbn [PartialPayment.id PartialPayment.serviceName PartialPayment.amount
       PartialPayment.dueDay PartialPayment.lastPaidDate default].
  apply negb_true_iff, Z.eqb_neq in Ha, Hd.
  destruct i as [i|]; cbn [truthyString default];
    [destruct (truthy i) eqn:Hi|]; repeat split; try done; intros; discriminate.
Qed.

(** X19. [handleProcess] keeps the payments it finds and appends one payment
    for each complete extracted row, in the order of the rows: the payment
    has the name, amount and due day of its row, the row's id when that is
    truthy and else the random string; with [Math.random().toString(36)]
    never empty, every payment it adds has a truthy id and name and a
    non-zero amount and due day. *)
Theorem handleProcess_adds_complete_rows random extracted : forall k prev,
  (forall j, truthy (random j) = true) ->
  exists added,
    handleProcess random k extracted prev = prev ++ added /\
    Forall2
      (fun row q =>
         PartialPayment.serviceName row = Some (RecurringPayment.serviceName q) /\
         PartialPayment.amount row = Some (RecurringPayment.amount q) /\
         PartialPayment.dueDay row = Some (RecurringPayment.dueDay q) /\
         RecurringPayment.lastPaidDate q =
           default None (PartialPayment.lastPaidDate row) /\
         (truthyString (PartialPayment.id row) = true ->
          PartialPayment.id row = Some (RecurringPayment.id q)) /\
         (truthyString (PartialPayment.id row) = false ->
          exists j, RecurringPayment.id q = random j))
      (List.filter completeRow extracted) added /\
    Forall (fun q =>
              truthy (RecurringPayment.id q) = true /\
              truthy (RecurringPayment.serviceName q) = true /\
              RecurringPayment.amount q <> 0 /\
              RecurringPayment.dueDay q <> 0) added.
Proof.
  induction extracted as [|p rest IH]; intros k prev Hrandom; cbn [handleProcess].
  - exists []. rewrite app_nil_r. repeat split; constructor.
  - cbn [List.filter].
    destruct (processRow_spec (random k) p prev (Hrandom k))
      as [[-> ->]|(-> & q & -> & Hn & Ha & Hd & Hp & Hid & Hrand & Ht)].
    + apply IH. exact Hrandom.
    + destruct (IH (S k) (prev ++ [q]) Hrandom) as (more & -> & Hrows & Hall).
      exists (q :: more). split; [by rewrite <- app_assoc|]. split.
      * constructor; [|exact Hrows]. repeat split; try done.
        intros Hfalsy. exists k. by apply Hrand.
      * constructor; [exact Ht|exact Hall].
Qed.

End PaymentsPageFacts.

Section SortedPaymentsFacts.
Import SortedPayments.

Lemma insert_Permutation x l : Permutation (insert x l) (x :: l).
Proof.
  induction l as [|y l IH]; cbn [insert]; [reflexivity|].
  destruct (compare x y <=? 0); [reflexivity|].
  rewrite IH. apply perm_swap.
Qed.

Lemma insert_Sorted x l : Sorted byDueDay l -> Sorted byDueDay (insert x l).
Proof.
  induction l as [|y l IH]; intros Hs; cbn [insert].
  - by repeat constructor.
  - unfold compare at 1. destruct (Z.leb_spec (RecurringPayment.dueDay x - RecurringPayment.dueDay y) 0)
      as [Hle|Hgt].
    + constructor; [exact Hs|]. constructor. unfold byDueDay. lia.
    + apply Sorted_inv in Hs as [Hs Hhd]. constructor; [by apply IH|].
      destruct l as [|z l]; cbn [insert].
      * constructor. unfold byDueDay. lia.
      * destruct (_ <=? 0); constructor; [unfold byDueDay; lia|].
        by apply HdRel_inv in Hhd.
Qed.

Lemma filter_insert d x l :
  List.filter (fun p => RecurringPayment.dueDay p =? d) (insert x l) =
  List.filter (fun p => RecurringPayment.dueDay p =? d) (x :: l).
Proof.
  induction l as [|y l IH]; cbn [insert]; [reflexivity|].
  unfold compare at 1. destruct (Z.leb_spec (RecurringPayment.dueDay x - RecurringPayment.dueDay y) 0)
    as [Hle|Hgt]; [reflexivity|].
  cbn [List.filter] in *. rewrite IH.
  destruct (Z.eqb_spec (RecurringPayment.dueDay x) d),
    (Z.eqb_spec (RecurringPayment.dueDay y) d); try reflexivity. lia.
Qed.

(** X20. The list the page shows holds the payments of the store, each as often
    as there, in the order of their due days; payments of one due day keep
    the order they have in the store. *)
Theorem sortedPayments_sorted_stable payments :
  Permutation (sortedPayments payments) payments /\
  Sorted byDueDay (sortedPayments payments) /\
  forall d,
    List.filter (fun p => RecurringPayment.dueDay p =? d) (sortedPayments payments) =
    List.filter (fun p => RecurringPayment.dueDay p =? d) payments.
Proof.
  unfold sortedPayments. induction payments as [|x l (Hp & Hs & Hf)]; cbn [sort].
  - repeat split; constructor.
  - split; [by rewrite insert_Permutation, Hp|]. split; [by apply insert_Sorted|].
    intros d. rewrite filter_insert. cbn [List.filter]. by rewrite Hf.
Qed.

End SortedPaymentsFacts.

Section ResizablePanelFacts.
Import ResizablePanel.
Local Open Scope Q_scope.

Lemma Qlt_bool_lt x y : Qlt_bool x y = true -> x < y.
Proof.
  unfold Qlt_bool. intros H%negb_true_iff. apply Qnot_le_lt. intros Hle.
  apply Qle_bool_iff in Hle. congruence.
Qed.

Lemma handle_width_bounds st e :
  30 < panelWidth st /\ panelWidth st < 80 ->
  30 < panelWidth (handle st e) /\ panelWidth (handle st e) < 80.
Proof.
  intros Hb. destruct e as [| |clientX innerWidth]; cbn [handle]; [done..|].
  unfold handleMouseMove. destruct (isResizing st); cbn [negb]; [|done].
  cbv zeta. destruct (Qlt_bool 30 _) eqn:Hlo; cbn [andb]; [|done].
  destruct (Qlt_bool _ 80) eqn:Hhi; [|done].
  cbn [panelWidth]. split; by apply Qlt_bool_lt.
Qed.

(** X21. Whatever the mouse does, a panel width that starts strictly between 30
    and 80 stays strictly between 30 and 80; and while no drag is on (no
    button down since the last release) a mouse move does not change it. *)
Theorem panel_width_stays_in_bounds events : forall st,
  30 < panelWidth st /\ panelWidth st < 80 ->
  (30 < panelWidth (foldl handle st events) /\
   panelWidth (foldl handle st events) < 80) /\
  forall clientX innerWidth,
    isResizing st = false ->
    handle st (MouseMove clientX innerWidth) = st.
Proof.
  induction events as [|e events IH]; intros st Hb.
  - split; [exact Hb|]. intros x w Hr. cbn [handle]. unfold handleMouseMove.
    by rewrite Hr.
  - split.
    + cbn [foldl]. apply IH. by apply handle_width_bounds.
    + intros x w Hr. cbn [handle]. unfold handleMouseMove. by rewrite Hr.
Qed.

End ResizablePanelFacts.

(** ** The further theorems at work on sample data *)

Lemma deletePayment_addPayment_witness :
  PaymentStore.deletePayment "0.gym" (PaymentStore.addPayment gym [rent; netflix]) =
  [rent; netflix].
Proof.
  apply (proj2 (deletePayment_addPayment gym [rent; netflix])).
  intros q [<-|[<-|[]]]; discriminate.
Defined.

Lemma editPayment_startEdit_witness :
  PaymentStore.editPayment "0.netflix" (PaymentsPage.startEdit netflix)
    [rent; netflix; gym] = [rent; netflix; gym].
Proof.
  apply (editPayment_startEdit netflix [rent; netflix; gym]).
  - right. left. reflexivity.
  - refine (bool_decide_unpack (NoDup _) _). vm_compute. exact I.
Defined.

Lemma run_mails_only_unsettled_actionable_witness :
  recipient = recipientEmail (hookState [rent; netflix] [] nothingStored) /\
  In rent [rent; netflix] /\
  @Hooks.actionable IST (@Hooks.days IST april29) rent = true /\
  @Hooks.isPaidThisMonth IST (@Hooks.days IST april29) rent = false /\
  isSendingRef (hookState [rent; netflix] [] nothingStored) = false.
Proof.
  apply (@run_mails_only_unsettled_actionable IST allDelivered april29
           (hookState [rent; netflix] [] nothingStored) rent recipient).
  vm_compute. left. reflexivity.
Defined.

Lemma marked_done_not_reminded_witness :
  ~ In paidRent
      (@Hooks.duePayments IST april30
         (@PaymentStore.togglePaymentStatus IST april29 "0.rent" [rent; netflix])).
Proof.
  destruct (@marked_done_not_reminded IST april29 april30 "0.rent" [rent; netflix]
              paidRent) as [Hout _].
  - vm_compute. reflexivity.
  - vm_compute. reflexivity.
  - intros q [<-|[<-|[]]] _; reflexivity.
  - vm_compute. left. reflexivity.
  - reflexivity.
  - exact Hout.
Defined.

Lemma run_with_nothing_to_send_witness :
  snd (@Hooks.checkAndSendEmails IST allDelivered april30
         (hookState [paidRent] [] nothingStored)) = [] /\
  emailLogs (fst (@Hooks.checkAndSendEmails IST allDelivered april30
                    (hookState [paidRent] [] nothingStored))) = [].
Proof.
  destruct (@run_with_nothing_to_send IST allDelivered april30
              (hookState [paidRent] [] nothingStored)) as (Hnone & Hlogs & _).
  - right. vm_compute. reflexivity.
  - split; [exact Hnone|exact Hlogs].
Defined.

Lemma second_run_same_day_does_nothing_witness :
  let st' := fst (@Hooks.checkAndSendEmails IST allDelivered april29
                    (hookState [rent; netflix] [] nothingStored)) in
  @Hooks.checkAndSendEmails IST secondRejected april29Later st' = (st', []).
Proof.
  apply (@second_run_same_day_does_nothing IST allDelivered secondRejected
           april29 april29Later (hookState [rent; netflix] [] nothingStored)).
  - reflexivity.
  - vm_compute. discriminate.
  - vm_compute. intros o [<-|[<-|[]]]; reflexivity.
  - intros p [<-|[<-|[]]]; reflexivity.
  - intros k. vm_compute. discriminate.
  - vm_compute. reflexivity.
  - vm_compute. reflexivity.
Defined.

Lemma retry_takes_up_failed_sends_witness :
  let st' := fst (@Hooks.checkAndSendEmails IST secondRejected april29
                    (hookState [rent; netflix] [] sentOnApril28)) in
  ~ In rent (@Hooks.paymentsToSend IST april29Later st') /\
  In netflix (@Hooks.paymentsToSend IST april29Later st').
Proof.
  cbv zeta. split.
  - apply (proj1 (@retry_takes_up_failed_sends IST secondRejected april29 april29Later
                    (hookState [rent; netflix] [] sentOnApril28)
                    eq_refl
                    ltac:(vm_compute; discriminate)
                    ltac:(vm_compute; intuition discriminate)
                    eq_refl
                    ltac:(intros k; vm_compute; discriminate)
                    ltac:(vm_compute; reflexivity)
                    ltac:(vm_compute; reflexivity)
                    0%nat rent ltac:(vm_compute; reflexivity))).
    + reflexivity.
    + reflexivity.
  - apply (proj2 (@retry_takes_up_failed_sends IST secondRejected april29 april29Later
                    (hookState [rent; netflix] [] sentOnApril28)
                    eq_refl
                    ltac:(vm_compute; discriminate)
                    ltac:(vm_compute; intuition discriminate)
                    eq_refl
                    ltac:(intros k; vm_compute; discriminate)
                    ltac:(vm_compute; reflexivity)
                    ltac:(vm_compute; reflexivity)
                    1%nat netflix ltac:(vm_compute; reflexivity))).
    intros [|[|j]] q Hq Hid; vm_compute in Hq; try discriminate Hq.
    + injection Hq as <-. discriminate Hid.
    + injection Hq as <-. vm_compute. discriminate.
Defined.

Lemma failed_run_resends_delivered_witness :
  let st' := fst (@Hooks.checkAndSendEmails IST secondRejected april29
                    (hookState [rent; netflix] [] nothingStored)) in
  (exists log, In log (emailLogs st') /\
     EmailLog.paymentId log = Some "0.rent" /\ EmailLog.status log = LogSuccess) /\
  In (Send rent recipient)
    (snd (@Hooks.checkAndSendEmails IST allDelivered april29Later st')).
Proof.
  cbv zeta.
  destruct (@failed_run_resends_delivered IST secondRejected allDelivered
              april29 april29Later (hookState [rent; netflix] [] nothingStored))
    as [_ Hdelivered].
  - reflexivity.
  - vm_compute. discriminate.
  - vm_compute. intuition discriminate.
  - vm_compute. auto.
  - discriminate.
  - intros k. vm_compute. discriminate.
  - vm_compute. intuition discriminate.
  - apply (Hdelivered 0%nat rent).
    + vm_compute. reflexivity.
    + vm_compute. reflexivity.
    + vm_compute. left. reflexivity.
Defined.


Lemma schedule_after_sent_run_witness :
  exists ms,
    @Hooks.schedule IST april29Later
      (localStorage (fst (@Hooks.checkAndSendEmails IST allDelivered april29
                            (hookState [rent; netflix] [] nothingStored)))) =
    SetTimeout ms /\
    @LocalTime IST (april29Later + ms) =
    MakeDate (Day (@LocalTime IST april29Later) + 1) (MakeTime 6 0 0 0).
Proof.
  apply (@schedule_after_sent_run IST allDelivered april29 april29Later
           (hookState [rent; netflix] [] nothingStored)).
  - reflexivity.
  - vm_compute. discriminate.
  - vm_compute. intros o [<-|[<-|[]]]; reflexivity.
  - vm_compute. reflexivity.
Defined.

Lemma schedule_after_failed_run_witness :
  @Hooks.schedule IST april29Later
    (localStorage (fst (@Hooks.checkAndSendEmails IST secondRejected april29
                          (hookState [rent; netflix] [] sentOnApril28)))) = CallNow.
Proof.
  apply (@schedule_after_failed_run IST secondRejected april29 april29Later
           (hookState [rent; netflix] [] sentOnApril28)).
  - reflexivity.
  - vm_compute. discriminate.
  - vm_compute. intuition discriminate.
  - vm_compute. auto.
  - vm_compute. discriminate.
  - vm_compute. discriminate.
Defined.

Lemma duePayments_same_day_witness :
  @Hooks.duePayments IST april29 [rent; netflix; gym] =
  @Hooks.duePayments IST april29Later [rent; netflix; gym].
Proof.
  apply (@duePayments_same_day IST april29 april29Later).
  vm_compute. reflexivity.
Defined.

Lemma beyond_month_end_actionable_on_eve_only_witness :
  In rent (@Hooks.duePayments IST april29 [rent]) /\
  ~ In rent (@Hooks.duePayments IST april30 [rent]).
Proof.
  pose proof (@beyond_month_end_actionable_on_eve_only IST april29 rent [rent]
                ltac:(vm_compute; discriminate) ltac:(vm_compute; reflexivity)
                ltac:(left; reflexivity) ltac:(vm_compute; reflexivity)) as [_ Heve].
  pose proof (@beyond_month_end_actionable_on_eve_only IST april30 rent [rent]
                ltac:(vm_compute; discriminate) ltac:(vm_compute; reflexivity)
                ltac:(left; reflexivity) ltac:(vm_compute; reflexivity)) as [Hlast _].
  split.
  - apply Heve. vm_compute. reflexivity.
  - intros Hin. specialize (Hlast Hin). vm_compute in Hlast. discriminate Hlast.
Defined.

Lemma reminder_names_due_day_or_tomorrow_witness :
  @ReminderEmail.dateStr IST april29 netflix = (3, 5, 2025) /\
  @ReminderEmail.dateStr IST april30
    (payment "0.today" "Water" 300 30 None) = (4, 1, 2025).
Proof.
  split.
  - apply (proj1 (@reminder_names_due_day_or_tomorrow IST april29 netflix)).
    + vm_compute. reflexivity.
    + vm_compute. discriminate.
  - apply (proj2 (@reminder_names_due_day_or_tomorrow IST april30
                    (payment "0.today" "Water" 300 30 None))).
    vm_compute. reflexivity.
Defined.

Lemma label_against_duePayments_witness :
  @PaymentsPage.getDueInString IST april30 31 None = LabelTomorrow /\
  ~ In rent (@Hooks.duePayments IST april30 [rent]).
Proof.
  assert (Hlabel : @PaymentsPage.getDueInString IST april30 31 None = LabelTomorrow)
    by (vm_compute; reflexivity).
  split; [exact Hlabel|]. intros Hin.
  pose proof (@label_against_duePayments IST april30 rent [rent]
                ltac:(left; reflexivity)) as Hl.
  cbv zeta in Hl. destruct Hl as (_ & _ & _ & Htomorrow).
  pose proof (proj1 (Htomorrow Hlabel) Hin) as Hlt.
  vm_compute in Hlt. discriminate Hlt.
Defined.

Lemma run_with_emailjs_notifier_witness :
  emailStatus (fst (@Hooks.checkAndSendEmails IST unconfigured april29
                      (hookState [rent; netflix] [] nothingStored))) = missing_config /\
  emailLogs (fst (@Hooks.checkAndSendEmails IST unconfigured april29
                    (hookState [rent; netflix] [] nothingStored))) = [].
Proof.
  destruct (@run_with_emailjs_notifier IST placeholders (fun _ => true)
              (fun _ => 300) (fun _ => "log") april29
              (hookState [rent; netflix] [] nothingStored)) as [Hmissing _].
  - reflexivity.
  - vm_compute. discriminate.
  - destruct Hmissing as (Hs & Hl & _); [vm_compute; reflexivity|].
    split; [exact Hs|exact Hl].
Defined.

Lemma handleProcess_adds_complete_rows_witness :
  PaymentsPage.handleProcess (fun _ => "0.k3x9") 0 extractedRows [gym] =
  [gym; payment "pay-1-abc" "Netflix" 650 5 None].
Proof.
  destruct (handleProcess_adds_complete_rows (fun _ => "0.k3x9") extractedRows
              0%nat [gym]) as (added & Heq & Hrows & _).
  - intros j. reflexivity.
  - rewrite Heq. f_equal. vm_compute in Hrows.
    inversion Hrows as [|row q rows qs (Hn & Ha & Hd & Hp & Hid & _) Hrest]; subst.
    inversion Hrest; subst.
    destruct q as [i n a d paid]. cbn in *.
    injection Hn as <-. injection Ha as <-. injection Hd as <-.
    injection (Hid eq_refl) as <-. by subst paid.
Defined.

Lemma panel_width_stays_in_bounds_witness :
  (30 < ResizablePanel.panelWidth
          (foldl ResizablePanel.handle (ResizablePanel.useResizablePanel (60 # 1))
             dragRight))%Q /\
  (ResizablePanel.panelWidth
     (foldl ResizablePanel.handle (ResizablePanel.useResizablePanel (60 # 1))
        dragRight) < 80)%Q.
Proof.
  apply (proj1 (panel_width_stays_in_bounds dragRight
                  (ResizablePanel.useResizablePanel (60 # 1))
                  ltac:(split; reflexivity))).
Defined.
